(** * pdf_to_st: ladder instruction list to Structured Text

    A shallow embedding of [src/pdf_to_st.py] (rung segmentation,
    instruction parsing, expression assembly, coil translation and the
    document translator) together with the properties of the
    specification that concern them.

    Text model.  A Python [str] is modelled as a [string] whose
    characters are ASCII.  The character classes below are those of
    Python on the ASCII range; characters of code 128 and above are
    kept as ordinary characters (no case, not white space, not a line
    boundary).  PDF extraction, argument parsing and file output are
    outside the embedding. *)

From Stdlib Require Import String Ascii List ZArith Bool Lia DecimalString.
Import ListNotations.

Local Open Scope string_scope.
Local Open Scope list_scope.

(** ** Exceptions

    The only operations of the translated functions that can raise are
    list subscripts; they are kept fallible so that "no exception" is a
    statement about the model instead of a property of the notation. *)

Module Exn.

Inductive exn : Type :=
| IndexError.

Inductive result (A : Type) : Type :=
| Ok (a : A)
| Raise (e : exn).

Arguments Ok {A} a.
Arguments Raise {A} e.

Definition bind {A B : Type} (m : result A) (k : A -> result B) : result B :=
  match m with
  | Ok a => k a
  | Raise e => Raise e
  end.

(** [l[i]] for a non-negative literal subscript. *)
Definition getitem {A : Type} (l : list A) (i : nat) : result A :=
  match nth_error l i with
  | Some a => Ok a
  | None => Raise IndexError
  end.

End Exn.

Import Exn.

Notation "x <- m ;; k" := (bind m (fun x => k))
  (at level 61, m at next level, right associativity).
Notation "' p <- m ;; k" := (bind m (fun x => match x with p => k end))
  (at level 61, p pattern, m at next level, right associativity).

(** ** The string methods the program calls *)

Module PyStr.

Definition LF : ascii := "010"%char.
Definition CR : ascii := "013"%char.

(** The line feed as a one-character string. *)
Definition nl : string := String LF "".

(** [c.isspace()] on ASCII: tab, LF, VT, FF, CR, FS, GS, RS, US, space. *)
Definition isspace (c : ascii) : bool :=
  let n := nat_of_ascii c in
  (((9 <=? n) && (n <=? 13)) || ((28 <=? n) && (n <=? 32)))%nat.

(** The line boundaries of [str.splitlines] on ASCII:
    LF, VT, FF, CR, FS, GS, RS. *)
Definition is_linebreak (c : ascii) : bool :=
  let n := nat_of_ascii c in
  (((10 <=? n) && (n <=? 13)) || ((28 <=? n) && (n <=? 30)))%nat.

Definition upper_char (c : ascii) : ascii :=
  let n := nat_of_ascii c in
  if ((97 <=? n) && (n <=? 122))%nat then ascii_of_nat (n - 32) else c.

Definition lower_char (c : ascii) : ascii :=
  let n := nat_of_ascii c in
  if ((65 <=? n) && (n <=? 90))%nat then ascii_of_nat (n + 32) else c.

Fixpoint upper (s : string) : string :=
  match s with
  | EmptyString => EmptyString
  | String c r => String (upper_char c) (upper r)
  end.

Fixpoint lower (s : string) : string :=
  match s with
  | EmptyString => EmptyString
  | String c r => String (lower_char c) (lower r)
  end.

(** [s.startswith(p)]. *)
Definition startswith (s p : string) : bool := String.prefix p s.

(** [sep.join(parts)]. *)
Definition join (sep : string) (parts : list string) : string :=
  String.concat sep parts.

Fixpoint lstrip (s : string) : string :=
  match s with
  | EmptyString => EmptyString
  | String c r => if isspace c then lstrip r else s
  end.

Fixpoint rstrip (s : string) : string :=
  match s with
  | EmptyString => EmptyString
  | String c r =>
      match rstrip r with
      | EmptyString => if isspace c then EmptyString else String c EmptyString
      | r' => String c r'
      end
  end.

(** [s.strip()]. *)
Definition strip (s : string) : string := rstrip (lstrip s).

(** [s.splitlines()]: the text is cut after every line boundary, CR LF
    counting as one; the boundaries are dropped and no empty last line
    is produced for a text that ends with a boundary. *)
Fixpoint splitlines (s : string) : list string :=
  match s with
  | EmptyString => []
  | String c rest =>
      if is_linebreak c then
        EmptyString ::
          (if Ascii.eqb c CR then
             match rest with
             | String c' rest' =>
                 if Ascii.eqb c' LF then splitlines rest' else splitlines rest
             | EmptyString => splitlines rest
             end
           else splitlines rest)
      else
        match splitlines rest with
        | [] => [String c EmptyString]
        | l :: ls => String c l :: ls
        end
  end.

(** The longest prefix without white space, and what follows it. *)
Fixpoint span_word (s : string) : string * string :=
  match s with
  | EmptyString => (EmptyString, EmptyString)
  | String c r =>
      if isspace c then (EmptyString, s)
      else let '(w, t) := span_word r in (String c w, t)
  end.

(** [s.split(maxsplit=1)]: leading white space is skipped, the first
    word is cut at the next white space, and what remains after the
    white space that follows, if anything, is the second part. *)
Definition split_maxsplit1 (s : string) : list string :=
  match lstrip s with
  | EmptyString => []
  | s1 =>
      let '(w, t) := span_word s1 in
      match lstrip t with
      | EmptyString => [w]
      | t' => [w; t']
      end
  end.

(** [f"{n}"] for an [int]. *)
Definition format_int (n : Z) : string :=
  NilZero.string_of_int (Z.to_int n).

End PyStr.

Import PyStr.

(** ** The program *)

(** The truth value of a list ([if current:]). *)
Definition truthy {A : Type} (l : list A) : bool :=
  match l with
  | [] => false
  | _ :: _ => true
  end.

(** The loop of [split_rungs], on the state [(rungs, current)]. *)
Fixpoint split_rungs_loop (lines : list string)
    (rungs : list (list string)) (current : list string)
    : list (list string) * list string :=
  match lines with
  | [] => (rungs, current)
  | raw_line :: rest =>
      let line := strip raw_line in
      if (line =? "")%string then
        if truthy current then split_rungs_loop rest (rungs ++ [current]) []
        else split_rungs_loop rest rungs current
      else if startswith (lower line) "rung" || startswith (lower line) "network" then
        if truthy current then split_rungs_loop rest (rungs ++ [current]) []
        else split_rungs_loop rest rungs current
      else split_rungs_loop rest rungs (current ++ [line])
  end.

Definition split_rungs (text : string) : list (list string) :=
  let '(rungs, current) := split_rungs_loop (splitlines text) [] [] in
  if truthy current then rungs ++ [current] else rungs.

Definition _parse_instruction (instr : string) : result (string * string) :=
  let parts := split_maxsplit1 instr in
  if negb (truthy parts) then Ok ("", "")
  else
    p0 <- getitem parts 0 ;;
    let opcode := upper p0 in
    operand <- (if (1 <? length parts)%nat
                then p1 <- getitem parts 1 ;; Ok (strip p1)
                else Ok "") ;;
    Ok (opcode, operand).

(** [op in {...}]. *)
Definition in_set (op : string) (s : list string) : bool :=
  existsb (String.eqb op) s.

(** One iteration of the loop of [rung_to_expression], after the
    instruction has been parsed, on the state
    [(expr_parts, coil_assignment)]. *)
Definition expression_step (op operand : string)
    (st : list string * option (string * string))
    : list string * option (string * string) :=
  let '(expr_parts, coil_assignment) := st in
  if in_set op ["LD"; "LDP"; "LDN"] then
    if (op =? "LDN")%string then (["NOT " ++ operand]%string, coil_assignment)
    else ([operand], coil_assignment)
  else if in_set op ["AND"; "ANDP"; "ANDN"] then
    if (op =? "ANDN")%string
    then (expr_parts ++ ["AND NOT " ++ operand]%string, coil_assignment)
    else (expr_parts ++ ["AND " ++ operand]%string, coil_assignment)
  else if in_set op ["OR"; "ORP"; "ORN"] then
    if (op =? "ORN")%string
    then (expr_parts ++ ["OR NOT " ++ operand]%string, coil_assignment)
    else (expr_parts ++ ["OR " ++ operand]%string, coil_assignment)
  else if in_set op ["OUT"; "SET"; "RST"; "OUTNOT"] then
    (expr_parts, Some (op, operand))
  else st.

Fixpoint rung_to_expression_loop (rung : list string)
    (st : list string * option (string * string))
    : result (list string * option (string * string)) :=
  match rung with
  | [] => Ok st
  | instr :: rest =>
      '(op, operand) <- _parse_instruction instr ;;
      rung_to_expression_loop rest (expression_step op operand st)
  end.

Definition rung_to_expression (rung : list string)
    : result (string * option (string * string)) :=
  '(expr_parts, coil_assignment) <- rung_to_expression_loop rung ([], None) ;;
  let expr := join " " expr_parts in
  Ok (expr, coil_assignment).

Definition rung_to_st (rung : list string) (index : Z) : result string :=
  '(expr, coil_assign) <- rung_to_expression rung ;;
  match coil_assign with
  | None => Ok ("(* Rung " ++ format_int index ++ ": no coil found *)")%string
  | Some (opcode, coil) =>
      let st_lines := ["(* Rung " ++ format_int index ++ " *)"]%string in
      let st_lines :=
        if (opcode =? "OUT")%string then
          st_lines ++ [coil ++ " := " ++ expr ++ ";"]%string
        else if (opcode =? "OUTNOT")%string then
          st_lines ++ [coil ++ " := NOT (" ++ expr ++ ");"]%string
        else if (opcode =? "SET")%string then
          st_lines ++ ["IF " ++ expr ++ " THEN " ++ coil ++ " := TRUE; END_IF;"]%string
        else if (opcode =? "RST")%string then
          st_lines ++ ["IF " ++ expr ++ " THEN " ++ coil ++ " := FALSE; END_IF;"]%string
        else
          st_lines ++ ["(* Unsupported coil opcode " ++ opcode ++ " *)"]%string in
      Ok (join nl st_lines)
  end.

(** The loop of [convert_text_to_st]; [i] is the value [enumerate]
    gives for the first rung of [rungs]. *)
Fixpoint convert_loop (i : Z) (rungs : list (list string))
    (st_lines : list string) : result (list string) :=
  match rungs with
  | [] => Ok st_lines
  | rung :: rest =>
      st <- rung_to_st rung i ;;
      convert_loop (i + 1) rest ((st_lines ++ [st]) ++ [""%string])
  end.

Definition convert_text_to_st (text : string) : result string :=
  let rungs := split_rungs text in
  st_lines <- convert_loop 1 rungs [] ;;
  Ok (join nl st_lines).

(** ** Vocabulary of the statements

    These definitions only name what the properties below talk about;
    each is read off the program above. *)

(** The pair [_parse_instruction] returns (it never raises, see
    [_parse_instruction_Ok]). *)
Definition instruction_of (instr : string) : string * string :=
  match _parse_instruction instr with
  | Ok p => p
  | Raise _ => (""%string, ""%string)
  end.

Definition opcode_of (instr : string) : string := fst (instruction_of instr).

Definition load_ops : list string := ["LD"; "LDP"; "LDN"]%string.
Definition and_ops : list string := ["AND"; "ANDP"; "ANDN"]%string.
Definition or_ops : list string := ["OR"; "ORP"; "ORN"]%string.
Definition coil_ops : list string := ["OUT"; "SET"; "RST"; "OUTNOT"]%string.

(** The opcodes that contribute a fragment to the expression. *)
Definition logic_ops : list string := load_ops ++ and_ops ++ or_ops.

(** The recognized vocabulary of the instruction list format. *)
Definition vocabulary : list string := logic_ops ++ coil_ops.

Definition is_coil (instr : string) : bool := in_set (opcode_of instr) coil_ops.
Definition is_logic (instr : string) : bool := in_set (opcode_of instr) logic_ops.
Definition not_coil (instr : string) : bool := negb (is_coil instr).

(** The loop of [rung_to_expression] as a fold over parsed instructions. *)
Definition run_steps (rung : list string)
    (st : list string * option (string * string))
    : list string * option (string * string) :=
  fold_left
    (fun st instr =>
       expression_step (fst (instruction_of instr)) (snd (instruction_of instr)) st)
    rung st.

(** The two comment lines and the four statements of [rung_to_st]. *)
Definition no_coil_comment (index : Z) : string :=
  ("(* Rung " ++ format_int index ++ ": no coil found *)")%string.
Definition rung_header (index : Z) : string :=
  ("(* Rung " ++ format_int index ++ " *)")%string.
Definition unsupported_comment (opcode : string) : string :=
  ("(* Unsupported coil opcode " ++ opcode ++ " *)")%string.
Definition out_statement (coil expr : string) : string :=
  (coil ++ " := " ++ expr ++ ";")%string.
Definition outnot_statement (coil expr : string) : string :=
  (coil ++ " := NOT (" ++ expr ++ ");")%string.
Definition set_statement (coil expr : string) : string :=
  ("IF " ++ expr ++ " THEN " ++ coil ++ " := TRUE; END_IF;")%string.
Definition rst_statement (coil expr : string) : string :=
  ("IF " ++ expr ++ " THEN " ++ coil ++ " := FALSE; END_IF;")%string.

(** The statement [rung_to_st] emits for one of the four coil opcodes. *)
Inductive coil_statement : string -> string -> string -> string -> Prop :=
| stmt_out coil expr :
    coil_statement "OUT" coil expr (out_statement coil expr)
| stmt_outnot coil expr :
    coil_statement "OUTNOT" coil expr (outnot_statement coil expr)
| stmt_set coil expr :
    coil_statement "SET" coil expr (set_statement coil expr)
| stmt_rst coil expr :
    coil_statement "RST" coil expr (rst_statement coil expr).

(** The classes of a raw line, as the loop of [split_rungs] tests them:
    blank, boundary marker, content. *)
Definition is_blank (raw_line : string) : bool :=
  (strip raw_line =? "")%string.
Definition is_boundary (raw_line : string) : bool :=
  startswith (lower (strip raw_line)) "rung"
  || startswith (lower (strip raw_line)) "network".
Definition is_separator (raw_line : string) : bool :=
  is_blank raw_line || is_boundary raw_line.
Definition is_content (raw_line : string) : bool :=
  negb (is_separator raw_line).

(** A string that holds no line boundary. *)
Fixpoint no_linebreak (s : string) : bool :=
  match s with
  | EmptyString => true
  | String c r => negb (is_linebreak c) && no_linebreak r
  end.

(** The closing test of [split_rungs] ([if current: rungs.append(current)]). *)
Definition flush (rungs : list (list string)) (current : list string)
    : list (list string) :=
  if truthy current then rungs ++ [current] else rungs.

(** The segmenter on lines that are already split, started with the
    buffer [current]. *)
Definition segment_from (lines : list string) (current : list string)
    : list (list string) :=
  let '(rungs, current') := split_rungs_loop lines [] current in
  flush rungs current'.

Definition segment (lines : list string) : list (list string) :=
  segment_from lines [].

(** A line as the segmenter stores it in a rung. *)
Definition stored_line (line : string) : Prop :=
  strip line = line /\ is_separator line = false /\ no_linebreak line = true.

(** The block [rung_to_st] returns (it never raises, see [rung_to_st_Ok]). *)
Definition block_of (rung : list string) (index : Z) : string :=
  match rung_to_st rung index with
  | Ok st => st
  | Raise _ => ""%string
  end.

(** The blocks of a list of rungs, numbered from [i]. *)
Fixpoint blocks_from (i : Z) (rungs : list (list string)) : list string :=
  match rungs with
  | [] => []
  | rung :: rest => block_of rung i :: blocks_from (i + 1) rest
  end.

(** The blocks of a text, in rung order. *)
Definition blocks_of_text (text : string) : list string :=
  blocks_from 1 (split_rungs text).

(** A blank line between two blocks. *)
Definition blank_line_sep : string := (nl ++ nl)%string.

Definition last_char (s : string) : option ascii :=
  last (map Some (list_ascii_of_string s)) None.

(** What [strip] returns starts with a character that is not white
    space, or is empty. *)
Definition head_ok (s : string) : Prop :=
  match s with
  | EmptyString => True
  | String c _ => isspace c = false
  end.

(** ** The PDF front end

    [extract_text] and [convert_pdfs_to_st] reach the outside world
    only through [pdfplumber].  What that library does is a parameter:
    [None] when the import failed, otherwise a function that, for a
    path, gives the exception the library raised while the document was
    read or, page by page, what [page.extract_text()] returned ([None]
    or a string).  A path is modelled by its string. *)

Module Pdf.

Section Source.

Variable E : Type.
Variable pdfplumber : option (string -> E + list (option string)).

Inductive failure : Type :=
| RuntimeError (msg : string)
| LibraryError (e : E)
| Uncaught (e : exn).

Inductive outcome (A : Type) : Type :=
| Done (a : A)
| Failed (f : failure).

(** [page.extract_text() or ""]. *)
Definition page_text_or_empty (page : option string) : string :=
  match page with
  | Some s => if (s =? "")%string then ""%string else s
  | None => ""%string
  end.

Fixpoint pages_loop (pages : list (option string)) (text_parts : list string)
    : list string :=
  match pages with
  | [] => text_parts
  | page :: rest =>
      let page_text := page_text_or_empty page in
      pages_loop rest (text_parts ++ [page_text])
  end.

Definition extract_text (pdf_path : string) : outcome string :=
  match pdfplumber with
  | None =>
      Failed string
        (RuntimeError
           "pdfplumber is required. Install it with `pip install pdfplumber`.")
  | Some library =>
      match library pdf_path with
      | inl e => Failed string (LibraryError e)
      | inr pages => Done string (join nl (pages_loop pages []))
      end
  end.

Fixpoint pdfs_loop (pdf_paths : list string) (all_text : list string)
    : outcome (list string) :=
  match pdf_paths with
  | [] => Done (list string) all_text
  | pdf :: rest =>
      match extract_text pdf with
      | Failed _ f => Failed (list string) f
      | Done _ text => pdfs_loop rest (all_text ++ [text])
      end
  end.

Definition convert_pdfs_to_st (pdf_paths : list string) : outcome string :=
  match pdfs_loop pdf_paths [] with
  | Failed _ f => Failed string f
  | Done _ all_text =>
      match convert_text_to_st (join nl all_text) with
      | Ok st => Done string st
      | Raise e => Failed string (Uncaught e)
      end
  end.

End Source.

Arguments RuntimeError {E} msg.
Arguments LibraryError {E} e.
Arguments Uncaught {E} e.
Arguments Done {E A} a.
Arguments Failed {E A} f.

End Pdf.

(** ** Vocabulary of the further properties *)

(** A string without white space. *)
Fixpoint no_space (s : string) : bool :=
  match s with
  | EmptyString => true
  | String c r => negb (isspace c) && no_space r
  end.

(** A string made of white space only. *)
Fixpoint all_space (s : string) : bool :=
  match s with
  | EmptyString => true
  | String c r => isspace c && all_space r
  end.

(** A character map applied along a string ([upper] and [lower] are
    such maps, see [upper_map_chars] and [lower_map_chars]). *)
Fixpoint map_chars (f : ascii -> ascii) (s : string) : string :=
  match s with
  | EmptyString => EmptyString
  | String c r => String (f c) (map_chars f r)
  end.

Definition is_load (instr : string) : bool := in_set (opcode_of instr) load_ops.

Definition is_and_or (instr : string) : bool :=
  in_set (opcode_of instr) (and_ops ++ or_ops).

(** A fragment that starts with a binary operator. *)
Definition combinator_fragment (fragment : string) : bool :=
  startswith fragment "AND " || startswith fragment "OR ".

(** The base fragment an LD-family instruction installs. *)
Definition load_fragment (op operand : string) : string :=
  if (op =? "LDN")%string then ("NOT " ++ operand)%string else operand.

(** A state of the expression builder in which neither a fragment nor
    the operand of the coil holds a line boundary. *)
Definition state_no_linebreak (st : list string * option (string * string)) : Prop :=
  Forall (fun x => no_linebreak x = true) (fst st)
  /\ forall op coil, snd st = Some (op, coil) -> no_linebreak coil = true.

(** Rungs written back as text: the lines of a rung joined with line
    feeds, the rungs a blank line apart. *)
Definition render_rungs (rungs : list (list string)) : string :=
  join blank_line_sep (map (join nl) rungs).

(** ** Runs on concrete inputs *)

Example format_int_samples :
  (format_int 0, format_int 7, format_int 12, format_int (-3))
  = ("0", "7", "12", "-3")%string.
Proof. reflexivity. Qed.

Example parse_samples :
  (_parse_instruction "ld   X0", _parse_instruction "out",
   _parse_instruction "", split_maxsplit1 "  a  b  c  ")
  = (Ok ("LD", "X0"), Ok ("OUT", ""), Ok ("", ""), ["a"; "b  c  "])%string.
Proof. reflexivity. Qed.

Example splitlines_samples :
  (splitlines ("a" ++ nl), splitlines nl, splitlines "",
   splitlines ("a" ++ String CR nl ++ nl ++ "b" ++ String CR "c"))%string
  = ([ "a" ], [ "" ], [], [ "a"; ""; "b"; "c" ])%string.
Proof. reflexivity. Qed.

(** ** Instruction parsing *)

Section Parsing.

Lemma split_maxsplit1_shape (s : string) :
  split_maxsplit1 s = []
  \/ (exists w, split_maxsplit1 s = [w])
  \/ (exists w t, split_maxsplit1 s = [w; t]).
Proof.
  unfold split_maxsplit1.
  destruct (lstrip s) as [|c s1]; [now left|].
  destruct (span_word (String c s1)) as [w t].
  destruct (lstrip t) as [|c' t'].
  - right; left; now exists w.
  - right; right; now exists w, (String c' t').
Qed.

(** Neither subscript of [_parse_instruction] is out of range. *)
Lemma _parse_instruction_Ok (instr : string) :
  _parse_instruction instr = Ok (instruction_of instr).
Proof.
  unfold instruction_of, _parse_instruction.
  destruct (split_maxsplit1_shape instr) as [H | [[w H] | [w [t H]]]];
    rewrite H; reflexivity.
Qed.

Lemma rung_to_expression_loop_Ok (rung : list string) st :
  rung_to_expression_loop rung st = Ok (run_steps rung st).
Proof.
  revert st; induction rung as [|instr rest IH]; intros st; simpl.
  - reflexivity.
  - rewrite _parse_instruction_Ok. cbn [bind].
    unfold run_steps; cbn [fold_left].
    destruct (instruction_of instr) as [op operand]; cbn [fst snd].
    apply IH.
Qed.

Lemma rung_to_expression_Ok (rung : list string) :
  rung_to_expression rung
  = Ok (join " " (fst (run_steps rung ([], None))),
        snd (run_steps rung ([], None))).
Proof.
  unfold rung_to_expression. rewrite rung_to_expression_loop_Ok; simpl.
  now destruct (run_steps rung ([], None)).
Qed.

End Parsing.

(** ** One step of the expression builder *)

Section ExpressionStep.

Lemma in_set_In (op : string) (s : list string) :
  in_set op s = true <-> In op s.
Proof.
  unfold in_set. rewrite existsb_exists. split.
  - intros [x [Hx He]]. apply String.eqb_eq in He. now subst.
  - intros H. exists op. split; [assumption | apply String.eqb_refl].
Qed.

Lemma in_set_app (op : string) (s t : list string) :
  in_set op (s ++ t) = in_set op s || in_set op t.
Proof. apply existsb_app. Qed.

Lemma vocabulary_false (op : string) :
  in_set op vocabulary = false ->
  in_set op load_ops = false /\ in_set op and_ops = false
  /\ in_set op or_ops = false /\ in_set op coil_ops = false.
Proof.
  unfold vocabulary, logic_ops. rewrite !in_set_app.
  destruct (in_set op load_ops), (in_set op and_ops), (in_set op or_ops),
    (in_set op coil_ops); cbn; intros H; try discriminate H; auto.
Qed.

Lemma logic_false (op : string) :
  in_set op logic_ops = false ->
  in_set op load_ops = false /\ in_set op and_ops = false
  /\ in_set op or_ops = false.
Proof.
  unfold logic_ops. rewrite !in_set_app.
  destruct (in_set op load_ops), (in_set op and_ops), (in_set op or_ops);
    cbn; intros H; try discriminate H; auto.
Qed.

Lemma expression_step_unfold (op operand : string) p c :
  expression_step op operand (p, c) =
    if in_set op load_ops then
      if (op =? "LDN")%string then (["NOT " ++ operand]%string, c)
      else ([operand], c)
    else if in_set op and_ops then
      if (op =? "ANDN")%string
      then (p ++ ["AND NOT " ++ operand]%string, c)
      else (p ++ ["AND " ++ operand]%string, c)
    else if in_set op or_ops then
      if (op =? "ORN")%string
      then (p ++ ["OR NOT " ++ operand]%string, c)
      else (p ++ ["OR " ++ operand]%string, c)
    else if in_set op coil_ops then (p, Some (op, operand))
    else (p, c).
Proof. reflexivity. Qed.

Lemma coil_step (op operand : string) p c :
  in_set op coil_ops = true ->
  expression_step op operand (p, c) = (p, Some (op, operand)).
Proof.
  intros H. apply in_set_In in H. simpl in H.
  destruct H as [<- | [<- | [<- | [<- | []]]]]; reflexivity.
Qed.

Lemma not_coil_step (op operand : string) p c :
  in_set op coil_ops = false ->
  expression_step op operand (p, c)
  = (fst (expression_step op operand (p, None)), c).
Proof.
  intros H. rewrite !expression_step_unfold, H.
  destruct (in_set op load_ops), (in_set op and_ops), (in_set op or_ops),
    (op =? "LDN")%string, (op =? "ANDN")%string, (op =? "ORN")%string;
    reflexivity.
Qed.

Lemma not_logic_step (op operand : string) p c :
  in_set op logic_ops = false ->
  fst (expression_step op operand (p, c)) = p.
Proof.
  intros H. apply logic_false in H. destruct H as [H1 [H2 H3]].
  rewrite expression_step_unfold, H1, H2, H3.
  now destruct (in_set op coil_ops).
Qed.

Lemma unknown_step (op operand : string) st :
  in_set op vocabulary = false ->
  expression_step op operand st = st.
Proof.
  intros H. apply vocabulary_false in H. destruct H as [H1 [H2 [H3 H4]]].
  destruct st as [p c].
  now rewrite expression_step_unfold, H1, H2, H3, H4.
Qed.

End ExpressionStep.

(** ** The expression builder over a whole rung *)

Section ExpressionBuilder.

Lemma run_steps_cons (instr : string) (rest : list string) st :
  run_steps (instr :: rest) st
  = run_steps rest
      (expression_step (fst (instruction_of instr))
         (snd (instruction_of instr)) st).
Proof. reflexivity. Qed.

Lemma run_steps_app (l1 l2 : list string) st :
  run_steps (l1 ++ l2) st = run_steps l2 (run_steps l1 st).
Proof. apply fold_left_app. Qed.

(** The fragments depend on the instructions that are not coils, the
    coil assignment on the last coil instruction. *)
Lemma run_steps_split (rung : list string) p c :
  run_steps rung (p, c)
  = (fst (run_steps (filter not_coil rung) (p, None)),
     match filter is_coil rung with
     | [] => c
     | l => Some (instruction_of (last l ""%string))
     end).
Proof.
  revert p c. induction rung as [|instr rest IH]; intros p c.
  - reflexivity.
  - rewrite run_steps_cons. cbn [filter]. unfold not_coil at 1.
    destruct (is_coil instr) eqn:E; cbn [negb].
    + unfold is_coil, opcode_of in E.
      rewrite (coil_step _ _ _ _ E), IH. f_equal.
      destruct (filter is_coil rest) as [|x l] eqn:F.
      * cbn [last]. now destruct (instruction_of instr).
      * reflexivity.
    + unfold is_coil, opcode_of in E.
      rewrite (not_coil_step _ _ _ _ E), IH, run_steps_cons.
      rewrite (not_coil_step _ _ p None E). reflexivity.
Qed.

Lemma last_In {A : Type} (l : list A) (d : A) :
  l <> [] -> In (last l d) l.
Proof.
  induction l as [|a l IH]; [congruence|]. intros _.
  destruct l as [|b l]; [now left|].
  right. apply IH. discriminate.
Qed.

Lemma filter_nil_iff {A : Type} (f : A -> bool) (l : list A) :
  filter f l = [] <-> (forall x, In x l -> f x = false).
Proof.
  induction l as [|a l IH]; simpl.
  - split; [intros _ x [] | reflexivity].
  - destruct (f a) eqn:E; split.
    + discriminate.
    + intros H. specialize (H a (or_introl eq_refl)). congruence.
    + intros H x [<- | Hx]; [assumption | now apply IH].
    + intros H. apply IH. intros x Hx. apply H. now right.
Qed.

(** Without a logic instruction no fragment is ever produced. *)
Lemma run_steps_no_logic (rung : list string) p c :
  (forall instr, In instr rung -> is_logic instr = false) ->
  fst (run_steps rung (p, c)) = p.
Proof.
  revert p c. induction rung as [|instr rest IH]; intros p c H.
  - reflexivity.
  - rewrite run_steps_cons.
    assert (E : is_logic instr = false) by (apply H; now left).
    unfold is_logic, opcode_of in E.
    pose proof (not_logic_step _ (snd (instruction_of instr)) p c E) as S.
    destruct (expression_step _ _ (p, c)) as [p' c']. cbn [fst] in S. subst p'.
    apply IH. intros i Hi. apply H. now right.
Qed.

Lemma run_steps_last_coil (rung : list string) p c :
  filter is_coil rung <> [] ->
  run_steps rung (p, c)
  = (fst (run_steps (filter not_coil rung) (p, None)),
     Some (instruction_of (last (filter is_coil rung) ""%string))).
Proof.
  intros N. rewrite run_steps_split.
  destruct (filter is_coil rung); [congruence | reflexivity].
Qed.

Lemma run_steps_no_coil (rung : list string) p c :
  filter is_coil rung = [] ->
  run_steps rung (p, c) = (fst (run_steps (filter not_coil rung) (p, None)), c).
Proof. intros N. now rewrite run_steps_split, N. Qed.

(** A recorded coil assignment carries one of the four coil opcodes. *)
Lemma recorded_coil_opcode (rung : list string) op coil :
  snd (run_steps rung ([], None)) = Some (op, coil) ->
  in_set op coil_ops = true.
Proof.
  rewrite run_steps_split; cbn [snd].
  destruct (filter is_coil rung) as [|x l] eqn:F; [discriminate|].
  assert (I : In (last (x :: l) ""%string) (filter is_coil rung)).
  { rewrite F. apply last_In. discriminate. }
  set (z := last (x :: l) ""%string) in *.
  apply filter_In in I. destruct I as [_ I].
  intros H. unfold is_coil, opcode_of in I.
  replace (instruction_of z) with (op, coil) in I by congruence.
  exact I.
Qed.

End ExpressionBuilder.

(** ** The rung translator *)

Section RungTranslator.

Lemma rung_to_st_no_coil (rung : list string) (index : Z) expr :
  rung_to_expression rung = Ok (expr, None) ->
  rung_to_st rung index = Ok (no_coil_comment index).
Proof. intros H. unfold rung_to_st. now rewrite H. Qed.

Lemma rung_to_st_coil (rung : list string) (index : Z) expr op coil :
  rung_to_expression rung = Ok (expr, Some (op, coil)) ->
  in_set op coil_ops = true ->
  exists stmt,
    coil_statement op coil expr stmt
    /\ rung_to_st rung index = Ok (join nl [rung_header index; stmt]).
Proof.
  intros H I. unfold rung_to_st. rewrite H. cbn [bind].
  apply in_set_In in I. simpl in I.
  destruct I as [<- | [<- | [<- | [<- | []]]]];
    eexists; (split; [constructor | reflexivity]).
Qed.

End RungTranslator.

(** ** Strings *)

Section Strings.

Lemma append_assoc (a b c : string) :
  ((a ++ b) ++ c = a ++ (b ++ c))%string.
Proof. induction a as [|x a IH]; simpl; [reflexivity | now rewrite IH]. Qed.

Lemma append_nil_r (a : string) : (a ++ "" = a)%string.
Proof. induction a as [|x a IH]; simpl; [reflexivity | now rewrite IH]. Qed.

Lemma append_cancel_l (a x y : string) :
  (a ++ x = a ++ y)%string -> x = y.
Proof.
  induction a as [|c a IH]; simpl; intros H; [assumption|].
  injection H as H. now apply IH.
Qed.

Lemma last_char_append (a b : string) :
  b <> ""%string -> last_char (a ++ b) = last_char b.
Proof.
  intros Hb. unfold last_char.
  induction a as [|c a IH]; [reflexivity|].
  cbn [append list_ascii_of_string map].
  destruct (map Some (list_ascii_of_string (a ++ b))) as [|y l] eqn:E.
  - destruct a; [destruct b; [congruence | discriminate E] | discriminate E].
  - rewrite <- IH. reflexivity.
Qed.

Lemma lstrip_head_ok (s : string) : head_ok (lstrip s).
Proof.
  induction s as [|c s IH]; simpl; [exact I|].
  destruct (isspace c) eqn:E; [assumption | exact E].
Qed.

Lemma lstrip_fixed (s : string) : head_ok s -> lstrip s = s.
Proof. destruct s as [|c s]; simpl; [reflexivity | now intros ->]. Qed.

Lemma rstrip_head_ok (s : string) : head_ok s -> head_ok (rstrip s).
Proof.
  destruct s as [|c s]; simpl; [trivial|]. intros H.
  destruct (rstrip s); [now rewrite H | exact H].
Qed.

Lemma rstrip_idempotent (s : string) : rstrip (rstrip s) = rstrip s.
Proof.
  induction s as [|c s IH]; [reflexivity|].
  cbn [rstrip]. destruct (rstrip s) as [|d r] eqn:E.
  - destruct (isspace c) eqn:F; [reflexivity|].
    cbn [rstrip]. now rewrite F.
  - cbn [rstrip]. cbn [rstrip] in IH. now rewrite IH.
Qed.

Lemma strip_idempotent (s : string) : strip (strip s) = strip s.
Proof.
  unfold strip.
  rewrite (lstrip_fixed (rstrip (lstrip s))).
  - apply rstrip_idempotent.
  - apply rstrip_head_ok, lstrip_head_ok.
Qed.

Lemma lstrip_no_linebreak (s : string) :
  no_linebreak s = true -> no_linebreak (lstrip s) = true.
Proof.
  induction s as [|c s IH]; [trivial|]. intros H.
  cbn [lstrip]. destruct (isspace c); [|exact H].
  apply IH. cbn [no_linebreak] in H. now apply andb_true_iff in H.
Qed.

Lemma rstrip_no_linebreak (s : string) :
  no_linebreak s = true -> no_linebreak (rstrip s) = true.
Proof.
  induction s as [|c s IH]; [trivial|]. intros H.
  cbn [no_linebreak] in H. apply andb_true_iff in H. destruct H as [Hc Hs].
  specialize (IH Hs). cbn [rstrip].
  destruct (rstrip s) as [|d r].
  - destruct (isspace c); [reflexivity|].
    cbn [no_linebreak]. now rewrite Hc.
  - cbn [no_linebreak] in *. now rewrite Hc, IH.
Qed.

Lemma strip_no_linebreak (s : string) :
  no_linebreak s = true -> no_linebreak (strip s) = true.
Proof. intros H. now apply rstrip_no_linebreak, lstrip_no_linebreak. Qed.

End Strings.

(** ** Lines *)

Section Lines.

Lemma splitlines_cons_no_linebreak (c : ascii) (rest : string) :
  is_linebreak c = false ->
  splitlines (String c rest)
  = match splitlines rest with
    | [] => [String c EmptyString]
    | l :: ls => String c l :: ls
    end.
Proof. intros H. cbn [splitlines]. now rewrite H. Qed.

(** Every line [splitlines] returns is free of line boundaries. *)
Lemma splitlines_no_linebreak_aux (s : string) :
  Forall (fun l => no_linebreak l = true) (splitlines s)
  /\ forall c, Forall (fun l => no_linebreak l = true) (splitlines (String c s)).
Proof.
  induction s as [|d s [IH1 IH2]].
  - split; [constructor|]. intros c. cbn [splitlines].
    destruct (is_linebreak c) eqn:E.
    + destruct (Ascii.eqb c CR); repeat constructor.
    + repeat constructor. cbn [no_linebreak]. now rewrite E.
  - split; [apply IH2|]. intros c.
    destruct (is_linebreak c) eqn:E.
    + cbn [splitlines]. rewrite E. constructor; [reflexivity|].
      destruct (Ascii.eqb c CR); [|apply IH2].
      destruct (Ascii.eqb d LF); [apply IH1 | apply IH2].
    + rewrite (splitlines_cons_no_linebreak _ _ E).
      specialize (IH2 d).
      destruct (splitlines (String d s)) as [|l ls].
      * repeat constructor. cbn [no_linebreak]. now rewrite E.
      * inversion IH2 as [|? ? Hl Hls]; subst.
        constructor; [|assumption]. cbn [no_linebreak]. now rewrite E, Hl.
Qed.

Lemma splitlines_no_linebreak (s : string) :
  Forall (fun l => no_linebreak l = true) (splitlines s).
Proof. apply splitlines_no_linebreak_aux. Qed.

(** A line followed by a line feed is read back as that line. *)
Lemma splitlines_line (l t : string) :
  no_linebreak l = true ->
  splitlines (l ++ nl ++ t)%string = l :: splitlines t.
Proof.
  induction l as [|c l IH]; intros H.
  - reflexivity.
  - cbn [no_linebreak] in H. apply andb_true_iff in H. destruct H as [Hc Hl].
    apply negb_true_iff in Hc.
    change (String c l ++ nl ++ t)%string with (String c (l ++ nl ++ t))%string.
    rewrite (splitlines_cons_no_linebreak _ _ Hc), (IH Hl). reflexivity.
Qed.

Lemma splitlines_single (l : string) :
  no_linebreak l = true -> l <> ""%string -> splitlines l = [l].
Proof.
  induction l as [|c l IH]; intros H N; [congruence|].
  cbn [no_linebreak] in H. apply andb_true_iff in H. destruct H as [Hc Hl].
  apply negb_true_iff in Hc.
  rewrite (splitlines_cons_no_linebreak _ _ Hc).
  destruct l as [|d l]; [reflexivity|].
  rewrite IH; [reflexivity | assumption | discriminate].
Qed.

(** Lines without boundaries, none of them empty, survive
    [splitlines] after [join]. *)
Lemma splitlines_join (ls : list string) :
  Forall (fun l => no_linebreak l = true /\ l <> ""%string) ls ->
  splitlines (join nl ls) = ls.
Proof.
  induction ls as [|x ls IH]; intros H; [reflexivity|].
  inversion H as [|? ? [Hx Nx] Hls]; subst.
  destruct ls as [|y ls].
  - now apply splitlines_single.
  - change (join nl (x :: y :: ls)) with (x ++ nl ++ join nl (y :: ls))%string.
    rewrite (splitlines_line _ _ Hx), (IH Hls). reflexivity.
Qed.

End Lines.

(** ** The rung segmenter *)

Section Segmenter.

Lemma truthy_app {A : Type} (l : list A) (x : A) : truthy (l ++ [x]) = true.
Proof. now destruct l. Qed.

Lemma flush_nil (rungs : list (list string)) (current : list string) :
  flush rungs current = rungs ++ flush [] current.
Proof. unfold flush. destruct (truthy current); [reflexivity | now rewrite app_nil_r]. Qed.

Lemma split_rungs_loop_separator raw rest rungs current :
  is_separator raw = true ->
  split_rungs_loop (raw :: rest) rungs current
  = split_rungs_loop rest (flush rungs current) [].
Proof.
  unfold is_separator, is_blank, is_boundary, flush. intros H.
  cbn [split_rungs_loop].
  destruct (strip raw =? "")%string.
  - now destruct current.
  - cbn [orb] in H. rewrite H. now destruct current.
Qed.

Lemma split_rungs_loop_content raw rest rungs current :
  is_separator raw = false ->
  split_rungs_loop (raw :: rest) rungs current
  = split_rungs_loop rest rungs (current ++ [strip raw]).
Proof.
  unfold is_separator, is_blank, is_boundary. intros H.
  apply orb_false_elim in H. destruct H as [H1 H2].
  cbn [split_rungs_loop]. now rewrite H1, H2.
Qed.

(** The rungs already emitted are only ever extended. *)
Lemma split_rungs_loop_rungs lines rungs current :
  split_rungs_loop lines rungs current
  = (rungs ++ fst (split_rungs_loop lines [] current),
     snd (split_rungs_loop lines [] current)).
Proof.
  revert rungs current. induction lines as [|raw rest IH]; intros rungs current.
  - cbn. now rewrite app_nil_r.
  - destruct (is_separator raw) eqn:E.
    + rewrite !(split_rungs_loop_separator _ _ _ _ E).
      rewrite (IH (flush rungs current)), (IH (flush [] current)).
      cbn [fst snd]. rewrite (flush_nil rungs), app_assoc. reflexivity.
    + rewrite !(split_rungs_loop_content _ _ _ _ E). apply IH.
Qed.

Lemma split_rungs_segment (text : string) :
  split_rungs text = segment (splitlines text).
Proof. reflexivity. Qed.

Lemma segment_from_nil current : segment_from [] current = flush [] current.
Proof. reflexivity. Qed.

Lemma segment_from_separator raw rest current :
  is_separator raw = true ->
  segment_from (raw :: rest) current = flush [] current ++ segment_from rest [].
Proof.
  intros E. unfold segment_from.
  rewrite (split_rungs_loop_separator _ _ _ _ E), split_rungs_loop_rungs.
  destruct (split_rungs_loop rest [] []) as [rs c]. cbn [fst snd].
  rewrite (flush_nil (_ ++ _)), (flush_nil rs), app_assoc. reflexivity.
Qed.

Lemma segment_from_content raw rest current :
  is_separator raw = false ->
  segment_from (raw :: rest) current = segment_from rest (current ++ [strip raw]).
Proof.
  intros E. unfold segment_from.
  now rewrite (split_rungs_loop_content _ _ _ _ E).
Qed.

(** Separators in front of the text leave no trace. *)
Lemma segment_from_separators seps lines :
  Forall (fun l => is_separator l = true) seps ->
  segment_from (seps ++ lines) [] = segment_from lines [].
Proof.
  induction 1 as [|s seps Hs _ IH]; [reflexivity|].
  cbn [app]. rewrite (segment_from_separator _ _ _ Hs). exact IH.
Qed.

(** A separator cuts the segmentation in two independent parts. *)
Lemma segment_from_cut l1 s l2 current :
  is_separator s = true ->
  segment_from (l1 ++ s :: l2) current
  = segment_from l1 current ++ segment_from l2 [].
Proof.
  intros Hs. revert current.
  induction l1 as [|raw l1 IH]; intros current.
  - cbn [app]. now rewrite (segment_from_separator _ _ _ Hs).
  - cbn [app]. destruct (is_separator raw) eqn:E.
    + rewrite !(segment_from_separator _ _ _ E), IH, app_assoc. reflexivity.
    + rewrite !(segment_from_content _ _ _ E). apply IH.
Qed.

Lemma segment_collapse l1 seps l2 :
  seps <> [] ->
  Forall (fun l => is_separator l = true) seps ->
  segment (l1 ++ seps ++ l2) = segment l1 ++ segment l2.
Proof.
  intros N H. destruct seps as [|s seps]; [congruence|].
  inversion H as [|? ? Hs Hseps]; subst.
  unfold segment. cbn [app].
  rewrite (segment_from_cut _ _ _ _ Hs).
  now rewrite (segment_from_separators _ _ Hseps).
Qed.

Lemma segment_from_last_content pre a current :
  is_separator a = false ->
  exists rs r, segment_from (pre ++ [a]) current = rs ++ [r ++ [strip a]].
Proof.
  intros Ha. revert current.
  induction pre as [|raw pre IH]; intros current.
  - exists [], current. cbn [app].
    rewrite (segment_from_content _ _ _ Ha), segment_from_nil.
    unfold flush. now rewrite truthy_app.
  - cbn [app]. destruct (is_separator raw) eqn:E.
    + destruct (IH []) as [rs [r Hr]].
      exists (flush [] current ++ rs), r.
      rewrite (segment_from_separator _ _ _ E), Hr, app_assoc. reflexivity.
    + rewrite (segment_from_content _ _ _ E). apply IH.
Qed.

Lemma segment_from_first_rung lines current :
  current <> [] ->
  exists r rs, segment_from lines current = (current ++ r) :: rs.
Proof.
  revert current. induction lines as [|raw rest IH]; intros current N.
  - exists [], []. rewrite segment_from_nil, app_nil_r.
    unfold flush. destruct current; [congruence | reflexivity].
  - destruct (is_separator raw) eqn:E.
    + exists [], (segment_from rest []).
      rewrite (segment_from_separator _ _ _ E), app_nil_r.
      unfold flush. destruct current; [congruence | reflexivity].
    + rewrite (segment_from_content _ _ _ E).
      destruct (IH (current ++ [strip raw])) as [r [rs Hr]].
      { now destruct current. }
      exists (strip raw :: r), rs. rewrite Hr, <- app_assoc. reflexivity.
Qed.

Lemma segment_from_all_separators lines :
  Forall (fun l => is_separator l = true) lines ->
  segment_from lines [] = [].
Proof.
  intros H. rewrite <- (app_nil_r lines).
  now rewrite (segment_from_separators _ _ H).
Qed.

Lemma is_separator_strip (raw : string) :
  is_separator (strip raw) = is_separator raw.
Proof.
  unfold is_separator, is_blank, is_boundary. now rewrite strip_idempotent.
Qed.

Lemma stored_line_strip (raw : string) :
  no_linebreak raw = true -> is_separator raw = false ->
  stored_line (strip raw).
Proof.
  intros H E. repeat split.
  - apply strip_idempotent.
  - now rewrite is_separator_strip.
  - now apply strip_no_linebreak.
Qed.

Lemma flush_stored (current : list string) :
  Forall stored_line current ->
  Forall (fun r => r <> [] /\ Forall stored_line r) (flush [] current).
Proof.
  intros H. destruct current as [|l current]; cbn; [constructor|].
  constructor; [|constructor]. split; [discriminate | assumption].
Qed.

(** Every rung is non-empty and made of stored lines. *)
Lemma segment_from_stored lines current :
  Forall (fun l => no_linebreak l = true) lines ->
  Forall stored_line current ->
  Forall (fun r => r <> [] /\ Forall stored_line r) (segment_from lines current).
Proof.
  intros H. revert current.
  induction H as [|raw rest Hraw _ IH]; intros current Hc.
  - rewrite segment_from_nil. now apply flush_stored.
  - destruct (is_separator raw) eqn:E.
    + rewrite (segment_from_separator _ _ _ E). apply Forall_app. split.
      * now apply flush_stored.
      * apply IH. constructor.
    + rewrite (segment_from_content _ _ _ E). apply IH.
      apply Forall_app. split; [assumption|].
      constructor; [now apply stored_line_strip | constructor].
Qed.

Lemma split_rungs_stored (text : string) :
  Forall (fun r => r <> [] /\ Forall stored_line r) (split_rungs text).
Proof.
  rewrite split_rungs_segment. apply segment_from_stored.
  - apply splitlines_no_linebreak.
  - constructor.
Qed.

(** Stored lines fed back without a separator make one rung. *)
Lemma segment_from_stored_lines lines current :
  Forall stored_line lines ->
  segment_from lines current = flush [] (current ++ lines).
Proof.
  intros H. revert current.
  induction H as [|l rest [Hl [Hs _]] _ IH]; intros current.
  - now rewrite segment_from_nil, app_nil_r.
  - rewrite (segment_from_content _ _ _ Hs), Hl, IH, <- app_assoc. reflexivity.
Qed.

Lemma stored_line_nonempty (l : string) : stored_line l -> l <> ""%string.
Proof.
  intros [_ [H _]] ->. discriminate H.
Qed.

Lemma boundary_is_separator (m : string) :
  is_boundary m = true -> is_separator m = true.
Proof. unfold is_separator. intros ->. apply orb_true_r. Qed.

End Segmenter.

(** ** The document translator *)

Section DocumentTranslator.

(** No rung makes [rung_to_st] raise. *)
Lemma rung_to_st_Ok (rung : list string) (index : Z) :
  rung_to_st rung index = Ok (block_of rung index).
Proof.
  unfold block_of, rung_to_st. rewrite rung_to_expression_Ok. cbn [bind].
  destruct (snd (run_steps rung ([], None))) as [[op coil]|]; reflexivity.
Qed.

Lemma convert_loop_Ok (i : Z) (rungs : list (list string)) (st_lines : list string) :
  convert_loop i rungs st_lines
  = Ok (st_lines ++ flat_map (fun b => [b; ""%string]) (blocks_from i rungs)).
Proof.
  revert i st_lines. induction rungs as [|rung rest IH]; intros i st_lines.
  - cbn. now rewrite app_nil_r.
  - cbn [convert_loop blocks_from flat_map].
    rewrite rung_to_st_Ok. cbn [bind]. rewrite IH, <- !app_assoc. reflexivity.
Qed.

Lemma convert_text_to_st_Ok (text : string) :
  convert_text_to_st text
  = Ok (join nl (flat_map (fun b => [b; ""%string]) (blocks_of_text text))).
Proof.
  unfold convert_text_to_st. now rewrite convert_loop_Ok.
Qed.

(** A block and an empty string per rung, joined with line feeds: the
    blocks are a blank line apart and the last one is followed by a
    line feed. *)
Lemma join_blocks (bs : list string) :
  join nl (flat_map (fun b => [b; ""%string]) bs)
  = match bs with
    | [] => ""%string
    | _ => (join blank_line_sep bs ++ nl)%string
    end.
Proof.
  induction bs as [|b bs IH]; [reflexivity|].
  destruct bs as [|b' bs].
  - cbn. reflexivity.
  - change (join nl (flat_map (fun b => [b; ""%string]) (b :: b' :: bs)))
      with (b ++ nl ++ ("" ++ nl
             ++ join nl (flat_map (fun b => [b; ""%string]) (b' :: bs))))%string.
    rewrite IH.
    change (join blank_line_sep (b :: b' :: bs))
      with (b ++ blank_line_sep ++ join blank_line_sep (b' :: bs))%string.
    unfold blank_line_sep. cbn [append].
    rewrite !append_assoc. reflexivity.
Qed.

Lemma blocks_from_length (i : Z) (rungs : list (list string)) :
  length (blocks_from i rungs) = length rungs.
Proof.
  revert i. induction rungs as [|r rs IH]; intros i; cbn; [reflexivity|].
  now rewrite IH.
Qed.

Lemma blocks_from_nth (i : Z) (rungs : list (list string)) (k : nat) rung :
  nth_error rungs k = Some rung ->
  nth_error (blocks_from i rungs) k = Some (block_of rung (i + Z.of_nat k)).
Proof.
  revert i k. induction rungs as [|r rs IH]; intros i k H.
  - destruct k; discriminate H.
  - destruct k as [|k].
    + injection H as ->. cbn. now rewrite Z.add_0_r.
    + cbn [nth_error blocks_from] in *. rewrite (IH _ _ H).
      do 2 f_equal. lia.
Qed.

End DocumentTranslator.

(** ** Properties of the specification *)

(** *** End-to-end scenario 1 *)

(** C1, as the specification states it, fails: the text returned for
    the rung [LD X0], [AND X1], [OUT Y0] is not the two lines alone. *)
Lemma scenario1_two_lines_alone_fails :
  convert_text_to_st ("LD X0" ++ nl ++ "AND X1" ++ nl ++ "OUT Y0")%string
  <> Ok ("(* Rung 1 *)" ++ nl ++ "Y0 := X0 AND X1;")%string.
Proof. vm_compute. discriminate. Qed.

(** C1 (amended): for the three lines [LD X0], [AND X1], [OUT Y0] the
    rung translation is the two-line block [(* Rung 1 *)],
    [Y0 := X0 AND X1;], and the document translation returns that
    block followed by one line feed. *)
Theorem scenario1_output :
  split_rungs ("LD X0" ++ nl ++ "AND X1" ++ nl ++ "OUT Y0")%string
  = [["LD X0"; "AND X1"; "OUT Y0"]%string]
  /\ rung_to_st ["LD X0"; "AND X1"; "OUT Y0"]%string 1
     = Ok ("(* Rung 1 *)" ++ nl ++ "Y0 := X0 AND X1;")%string
  /\ convert_text_to_st ("LD X0" ++ nl ++ "AND X1" ++ nl ++ "OUT Y0")%string
     = Ok ("(* Rung 1 *)" ++ nl ++ "Y0 := X0 AND X1;" ++ nl)%string.
Proof. repeat split; vm_compute; reflexivity. Qed.

(** *** Shape of the output *)

(** C2, as the specification states it, fails: for a text with one
    rung the output is not the blocks joined by blank lines and
    nothing else. *)
Lemma blocks_and_nothing_else_fails :
  convert_text_to_st ("LD X0" ++ nl ++ "OUT Y0")%string
  <> Ok (join blank_line_sep (blocks_of_text ("LD X0" ++ nl ++ "OUT Y0")%string)).
Proof. vm_compute. discriminate. Qed.

(** C2 (amended): for every text the output is the blocks of the
    rungs, in rung order (the block at position [k] is the translation
    of the rung at position [k] with index [k + 1]), joined with one
    blank line between consecutive blocks, followed by one line feed
    when there is at least one rung; for a text with no content line
    the output is the empty string. *)
Theorem document_output (text : string) :
  convert_text_to_st text
  = Ok (match blocks_of_text text with
        | [] => ""%string
        | bs => (join blank_line_sep bs ++ nl)%string
        end)
  /\ length (blocks_of_text text) = length (split_rungs text)
  /\ (forall k rung,
        nth_error (split_rungs text) k = Some rung ->
        exists block,
          rung_to_st rung (Z.of_nat k + 1) = Ok block
          /\ nth_error (blocks_of_text text) k = Some block)
  /\ (Forall (fun l => is_content l = false) (splitlines text) ->
      convert_text_to_st text = Ok ""%string).
Proof.
  repeat split.
  - rewrite convert_text_to_st_Ok, join_blocks.
    now destruct (blocks_of_text text).
  - apply blocks_from_length.
  - intros k rung H. exists (block_of rung (Z.of_nat k + 1)). split.
    + apply rung_to_st_Ok.
    + unfold blocks_of_text. rewrite (blocks_from_nth _ _ _ _ H).
      do 2 f_equal. lia.
  - intros H. rewrite convert_text_to_st_Ok. unfold blocks_of_text.
    rewrite split_rungs_segment. unfold segment.
    rewrite segment_from_all_separators; [reflexivity|].
    eapply Forall_impl; [|exact H]. intros l Hl. unfold is_content in Hl.
    now apply negb_false_iff in Hl.
Qed.

Lemma document_output_witness :
  Forall (fun l => is_content l = false)
    (splitlines (nl ++ "Rung 1" ++ nl ++ "  " ++ nl ++ "network 2")%string)
  /\ convert_text_to_st (nl ++ "Rung 1" ++ nl ++ "  " ++ nl ++ "network 2")%string
     = Ok ""%string.
Proof.
  split.
  - vm_compute. repeat constructor.
  - apply (document_output (nl ++ "Rung 1" ++ nl ++ "  " ++ nl ++ "network 2")%string).
    vm_compute. repeat constructor.
Defined.

(** *** Coil precedence *)

(** C3: in a rung with two or more coil instructions the recorded coil
    assignment is that of the last coil instruction in line order, the
    expression is the one built from the instructions that are not
    coils, wherever the coils stand, nothing is raised, and the block
    is the one of the rung reduced to its non-coil instructions
    followed by its last coil instruction. *)
Theorem last_coil_wins (rung : list string) :
  (2 <= length (filter is_coil rung))%nat ->
  exists expr op coil,
    instruction_of (last (filter is_coil rung) ""%string) = (op, coil)
    /\ rung_to_expression (filter not_coil rung) = Ok (expr, None)
    /\ rung_to_expression rung = Ok (expr, Some (op, coil))
    /\ forall index,
         exists stmt,
           coil_statement op coil expr stmt
           /\ rung_to_st rung index = Ok (join nl [rung_header index; stmt])
           /\ rung_to_st
                (filter not_coil rung ++ [last (filter is_coil rung) ""%string])
                index
              = Ok (join nl [rung_header index; stmt]).
Proof.
  intros H.
  set (z := last (filter is_coil rung) ""%string).
  assert (N : filter is_coil rung <> []).
  { intros E. rewrite E in H. cbn in H. lia. }
  assert (Hz : is_coil z = true).
  { apply (proj2 (proj1 (filter_In _ _ _) (last_In _ ""%string N))). }
  assert (Hnc : filter is_coil (filter not_coil rung) = []).
  { apply filter_nil_iff. intros x Hx. apply filter_In in Hx.
    destruct Hx as [_ Hx]. unfold not_coil in Hx. now apply negb_true_iff in Hx. }
  assert (Hnn : filter not_coil (filter not_coil rung) = filter not_coil rung).
  { apply forallb_filter_id. apply forallb_forall. intros x Hx.
    apply filter_In in Hx. tauto. }
  destruct (instruction_of z) as [op coil] eqn:Ez.
  exists (join " " (fst (run_steps (filter not_coil rung) ([], None)))), op, coil.
  assert (R : rung_to_expression rung
              = Ok (join " " (fst (run_steps (filter not_coil rung) ([], None))),
                    Some (op, coil))).
  { rewrite rung_to_expression_Ok, (run_steps_last_coil _ _ _ N). cbn [fst snd].
    fold z. now rewrite Ez. }
  assert (R' : rung_to_expression (filter not_coil rung ++ [z])
               = Ok (join " " (fst (run_steps (filter not_coil rung) ([], None))),
                     Some (op, coil))).
  { rewrite rung_to_expression_Ok, run_steps_app.
    rewrite (run_steps_no_coil _ _ _ Hnc), Hnn.
    unfold run_steps at 1 3. cbn [fold_left]. rewrite Ez. cbn [fst snd].
    unfold is_coil, opcode_of in Hz. rewrite Ez in Hz. cbn [fst] in Hz.
    now rewrite (coil_step _ _ _ _ Hz). }
  assert (I : in_set op coil_ops = true).
  { unfold is_coil, opcode_of in Hz. now rewrite Ez in Hz. }
  repeat split.
  - rewrite rung_to_expression_Ok, (run_steps_no_coil _ _ _ Hnc), Hnn. reflexivity.
  - exact R.
  - intros index.
    destruct (rung_to_st_coil _ index _ _ _ R I) as [stmt [Hs Hb]].
    destruct (rung_to_st_coil _ index _ _ _ R' I) as [stmt' [Hs' Hb']].
    exists stmt. repeat split; try assumption.
    rewrite Hb'. inversion Hs; subst; inversion Hs'; subst; reflexivity.
Qed.

Lemma last_coil_wins_witness :
  (2 <= length (filter is_coil ["OUT Y0"; "LD X0"; "SET Y1"; "AND X1"]%string))%nat
  /\ exists expr op coil,
       instruction_of
         (last (filter is_coil ["OUT Y0"; "LD X0"; "SET Y1"; "AND X1"]%string) ""%string)
       = (op, coil)
       /\ rung_to_expression (filter not_coil ["OUT Y0"; "LD X0"; "SET Y1"; "AND X1"]%string)
          = Ok (expr, None)
       /\ rung_to_expression ["OUT Y0"; "LD X0"; "SET Y1"; "AND X1"]%string
          = Ok (expr, Some (op, coil))
       /\ forall index,
            exists stmt,
              coil_statement op coil expr stmt
              /\ rung_to_st ["OUT Y0"; "LD X0"; "SET Y1"; "AND X1"]%string index
                 = Ok (join nl [rung_header index; stmt])
              /\ rung_to_st
                   (filter not_coil ["OUT Y0"; "LD X0"; "SET Y1"; "AND X1"]%string
                    ++ [last (filter is_coil ["OUT Y0"; "LD X0"; "SET Y1"; "AND X1"]%string)
                          ""%string])
                   index
                 = Ok (join nl [rung_header index; stmt]).
Proof.
  split.
  - vm_compute. lia.
  - apply (last_coil_wins ["OUT Y0"; "LD X0"; "SET Y1"; "AND X1"]%string).
    vm_compute. lia.
Defined.

Example coil_precedence_sample :
  rung_to_st ["OUT Y0"; "LD X0"; "SET Y1"; "AND X1"]%string 4
  = Ok ("(* Rung 4 *)" ++ nl ++ "IF X0 AND X1 THEN Y1 := TRUE; END_IF;")%string.
Proof. vm_compute. reflexivity. Qed.

(** *** No-coil fallback *)

(** C4: a rung none of whose instructions has a coil opcode is
    translated, for every index, to the single line
    [(* Rung {index}: no coil found *)]; the expression that was built
    does not appear in it. *)
Theorem no_coil_fallback (rung : list string) (index : Z) :
  (forall instr, In instr rung -> in_set (opcode_of instr) coil_ops = false) ->
  (exists expr, rung_to_expression rung = Ok (expr, None))
  /\ rung_to_st rung index
     = Ok ("(* Rung " ++ format_int index ++ ": no coil found *)")%string.
Proof.
  intros H.
  assert (N : filter is_coil rung = []) by (now apply filter_nil_iff).
  assert (R : rung_to_expression rung
              = Ok (join " " (fst (run_steps (filter not_coil rung) ([], None))),
                    None)).
  { now rewrite rung_to_expression_Ok, (run_steps_no_coil _ _ _ N). }
  split.
  - eexists. exact R.
  - apply (rung_to_st_no_coil _ _ _ R).
Qed.

Lemma no_coil_fallback_witness :
  (forall instr, In instr ["LD X0"; "AND X1"]%string ->
                 in_set (opcode_of instr) coil_ops = false)
  /\ rung_to_st ["LD X0"; "AND X1"]%string 3
     = Ok "(* Rung 3: no coil found *)"%string.
Proof.
  assert (H : forall instr, In instr ["LD X0"; "AND X1"]%string ->
                            in_set (opcode_of instr) coil_ops = false).
  { intros instr [<- | [<- | []]]; reflexivity. }
  split; [exact H|].
  exact (proj2 (no_coil_fallback ["LD X0"; "AND X1"]%string 3 H)).
Defined.

(** *** Unknown opcodes *)

(** C5: an instruction whose upper-cased opcode is outside the
    recognized vocabulary leaves the state of the expression builder
    as it is; the expression, the coil assignment and the block of a
    rung are those of the rung without that instruction, and nothing
    is raised.  The rung [LD X0], [XYZ X1], [OUT Y0] gives the
    expression [X0] and the statement [Y0 := X0;]. *)
Theorem unknown_opcode_ignored :
  (forall instr, in_set (opcode_of instr) vocabulary = false ->
     (forall st,
        expression_step (fst (instruction_of instr)) (snd (instruction_of instr)) st
        = st)
     /\ forall pre post,
          (exists r, rung_to_expression (pre ++ instr :: post) = Ok r
                     /\ rung_to_expression (pre ++ post) = Ok r)
          /\ forall index,
               exists block,
                 rung_to_st (pre ++ instr :: post) index = Ok block
                 /\ rung_to_st (pre ++ post) index = Ok block)
  /\ vocabulary
     = ["LD"; "LDP"; "LDN"; "AND"; "ANDP"; "ANDN"; "OR"; "ORP"; "ORN";
        "OUT"; "SET"; "RST"; "OUTNOT"]%string
  /\ rung_to_expression ["LD X0"; "XYZ X1"; "OUT Y0"]%string
     = Ok ("X0", Some ("OUT", "Y0"))%string
  /\ rung_to_st ["LD X0"; "XYZ X1"; "OUT Y0"]%string 1
     = Ok ("(* Rung 1 *)" ++ nl ++ "Y0 := X0;")%string.
Proof.
  split; [|repeat split; vm_compute; reflexivity].
  intros instr H.
  assert (S : forall st,
             expression_step (fst (instruction_of instr))
               (snd (instruction_of instr)) st = st).
  { intros st. now apply unknown_step. }
  assert (E : forall pre post st,
             run_steps (pre ++ instr :: post) st = run_steps (pre ++ post) st).
  { intros pre post st. rewrite !run_steps_app, run_steps_cons, S. reflexivity. }
  assert (R : forall pre post,
             rung_to_expression (pre ++ instr :: post)
             = rung_to_expression (pre ++ post)).
  { intros pre post. now rewrite !rung_to_expression_Ok, E. }
  split; [exact S|]. intros pre post. split.
  - eexists. split; [apply rung_to_expression_Ok|].
    rewrite <- R. apply rung_to_expression_Ok.
  - intros index. exists (block_of (pre ++ post) index). split.
    + unfold rung_to_st at 1. rewrite R. apply rung_to_st_Ok.
    + apply rung_to_st_Ok.
Qed.

Lemma unknown_opcode_ignored_witness :
  in_set (opcode_of "xyz X1") vocabulary = false
  /\ exists block,
       rung_to_st (["LD X0"] ++ "xyz X1" :: ["OUT Y0"]) 1 = Ok block
       /\ rung_to_st (["LD X0"] ++ ["OUT Y0"]) 1 = Ok block.
Proof.
  split; [reflexivity|].
  apply (proj2 (proj2 (proj1 unknown_opcode_ignored "xyz X1"%string eq_refl)
                  ["LD X0"%string] ["OUT Y0"%string])).
Defined.

(** *** Segmentation *)

(** C6: every rung [split_rungs] returns holds at least one line, and
    only content lines; a text without content line gives no rung;
    and when two content lines [a] and [b] of the text have between
    them a non-empty run of blank lines and boundary markers, the
    rungs are those of the lines up to [a] followed by those of the
    lines from [b] on, [a] closing one rung and [b] opening the next
    one. *)
Theorem segmentation_invariants (text : string) :
  (forall rung, In rung (split_rungs text) ->
     rung <> [] /\ forall line, In line rung -> is_content line = true)
  /\ (Forall (fun l => is_content l = false) (splitlines text) ->
      split_rungs text = [])
  /\ (forall pre a seps b post,
        splitlines text = pre ++ [a] ++ seps ++ [b] ++ post ->
        is_content a = true -> is_content b = true ->
        seps <> [] -> Forall (fun l => is_content l = false) seps ->
        exists rungs1 r1 r2 rungs2,
          segment (pre ++ [a]) = rungs1 ++ [r1 ++ [strip a]]
          /\ segment (b :: post) = (strip b :: r2) :: rungs2
          /\ split_rungs text
             = rungs1 ++ [r1 ++ [strip a]] ++ [strip b :: r2] ++ rungs2).
Proof.
  assert (C : forall l, is_content l = false -> is_separator l = true).
  { intros l Hl. unfold is_content in Hl. now apply negb_false_iff in Hl. }
  repeat split.
  - pose proof (split_rungs_stored text) as F.
    rewrite Forall_forall in F. now apply F.
  - intros line Hl. pose proof (split_rungs_stored text) as F.
    rewrite Forall_forall in F. destruct (F _ H) as [_ G].
    rewrite Forall_forall in G. destruct (G _ Hl) as [_ [S _]].
    unfold is_content. now rewrite S.
  - intros H. rewrite split_rungs_segment. apply segment_from_all_separators.
    eapply Forall_impl; [|exact H]. exact C.
  - intros pre a seps b post Hsplit Ha Hb N Hseps.
    unfold is_content in Ha, Hb.
    apply negb_true_iff in Ha. apply negb_true_iff in Hb.
    destruct (segment_from_last_content pre a [] Ha) as [rungs1 [r1 H1]].
    destruct (segment_from_first_rung post [strip b]) as [r2 [rungs2 H2]];
      [discriminate|].
    exists rungs1, r1, r2, rungs2.
    assert (H2' : segment (b :: post) = (strip b :: r2) :: rungs2).
    { unfold segment. now rewrite (segment_from_content _ _ _ Hb). }
    split; [exact H1 | split; [exact H2'|]].
    rewrite split_rungs_segment, Hsplit.
    replace (pre ++ [a] ++ seps ++ [b] ++ post)
      with ((pre ++ [a]) ++ seps ++ (b :: post))
      by (now rewrite <- app_assoc).
    rewrite segment_collapse; [|assumption|].
    + unfold segment in *. rewrite H1, H2'. now rewrite <- app_assoc.
    + eapply Forall_impl; [|exact Hseps]. exact C.
Qed.

Lemma segmentation_invariants_witness :
  splitlines ("LD X0" ++ nl ++ "OUT Y0" ++ nl ++ nl ++ "Rung 2" ++ nl
              ++ "  " ++ nl ++ "LD X1" ++ nl ++ "OUT Y1")%string
  = ["LD X0"%string] ++ ["OUT Y0"%string] ++ [""; "Rung 2"; "  "]%string
    ++ ["LD X1"%string] ++ ["OUT Y1"%string]
  /\ is_content "OUT Y0" = true /\ is_content "LD X1" = true
  /\ [""; "Rung 2"; "  "]%string <> []
  /\ Forall (fun l => is_content l = false) [""; "Rung 2"; "  "]%string
  /\ exists rungs1 r1 r2 rungs2,
       segment (["LD X0"%string] ++ ["OUT Y0"%string])
       = rungs1 ++ [r1 ++ [strip "OUT Y0"]]
       /\ segment ("LD X1"%string :: ["OUT Y1"%string])
          = (strip "LD X1" :: r2) :: rungs2
       /\ split_rungs ("LD X0" ++ nl ++ "OUT Y0" ++ nl ++ nl ++ "Rung 2" ++ nl
                       ++ "  " ++ nl ++ "LD X1" ++ nl ++ "OUT Y1")%string
          = rungs1 ++ [r1 ++ [strip "OUT Y0"]] ++ [strip "LD X1" :: r2] ++ rungs2.
Proof.
  assert (S : Forall (fun l => is_content l = false) [""; "Rung 2"; "  "]%string).
  { repeat constructor. }
  repeat split; try reflexivity; try discriminate; try exact S.
  apply (proj2 (proj2 (segmentation_invariants
           ("LD X0" ++ nl ++ "OUT Y0" ++ nl ++ nl ++ "Rung 2" ++ nl
            ++ "  " ++ nl ++ "LD X1" ++ nl ++ "OUT Y1")%string))
           ["LD X0"%string] "OUT Y0"%string [""; "Rung 2"; "  "]%string
           "LD X1"%string ["OUT Y1"%string]);
    try reflexivity; try discriminate; exact S.
Defined.

Example boundary_collapsing_sample :
  split_rungs ("LD X0" ++ nl ++ "OUT Y0" ++ nl ++ nl ++ "Rung 2" ++ nl
               ++ "  " ++ nl ++ "LD X1" ++ nl ++ "OUT Y1")%string
  = [["LD X0"; "OUT Y0"]; ["LD X1"; "OUT Y1"]]%string.
Proof. vm_compute. reflexivity. Qed.

(** C7: a rung [R] that the segmenter produced from some text is
    recovered alone when the segmenter is run on a boundary marker
    line followed by the lines of [R] joined with line feeds. *)
Theorem segmentation_round_trip (text : string) (R : list string) (marker : string) :
  In R (split_rungs text) ->
  no_linebreak marker = true ->
  is_boundary marker = true ->
  split_rungs (marker ++ nl ++ join nl R)%string = [R].
Proof.
  intros HR Hm Hb.
  pose proof (split_rungs_stored text) as F. rewrite Forall_forall in F.
  destruct (F _ HR) as [N S].
  rewrite split_rungs_segment, (splitlines_line _ _ Hm), splitlines_join.
  - unfold segment.
    rewrite (segment_from_separator _ _ _ (boundary_is_separator _ Hb)).
    rewrite (segment_from_stored_lines _ _ S). cbn [flush truthy app].
    destruct R; [congruence | reflexivity].
  - eapply Forall_impl; [|exact S]. intros l Hl. split.
    + apply Hl.
    + now apply stored_line_nonempty.
Qed.

Lemma segmentation_round_trip_witness :
  In ["LD X1"; "OUTNOT Y1"]%string
    (split_rungs ("LD X0" ++ nl ++ " out Y0 " ++ nl ++ "NETWORK 2" ++ nl
                  ++ "LD X1 " ++ nl ++ "OUTNOT Y1")%string)
  /\ no_linebreak "Rung 1" = true
  /\ is_boundary "Rung 1" = true
  /\ split_rungs ("Rung 1" ++ nl ++ join nl ["LD X1"; "OUTNOT Y1"])%string
     = [["LD X1"; "OUTNOT Y1"]%string].
Proof.
  assert (H : In ["LD X1"; "OUTNOT Y1"]%string
                (split_rungs ("LD X0" ++ nl ++ " out Y0 " ++ nl ++ "NETWORK 2" ++ nl
                              ++ "LD X1 " ++ nl ++ "OUTNOT Y1")%string)).
  { right. left. reflexivity. }
  split; [exact H | split; [reflexivity | split; [reflexivity|]]].
  exact (segmentation_round_trip _ _ "Rung 1"%string H eq_refl eq_refl).
Defined.

(** *** Fail-soft translation *)

(** C8: for every text [convert_text_to_st] returns a string, and no
    rung makes [rung_to_st] or [rung_to_expression] raise, whatever
    its instructions (no coil, unknown opcodes, AND or OR before any
    LD); the text returned holds one block per rung of the document. *)
Theorem translation_never_raises (text : string) :
  (exists out, convert_text_to_st text = Ok out)
  /\ (forall instr, exists op operand, _parse_instruction instr = Ok (op, operand))
  /\ (forall rung, exists expr coil, rung_to_expression rung = Ok (expr, coil))
  /\ (forall rung index, exists block, rung_to_st rung index = Ok block)
  /\ exists blocks,
       length blocks = length (split_rungs text)
       /\ convert_text_to_st text
          = Ok (join nl (flat_map (fun b => [b; ""%string]) blocks)).
Proof.
  repeat split.
  - eexists. apply convert_text_to_st_Ok.
  - intros instr. destruct (instruction_of instr) as [op operand] eqn:E.
    exists op, operand. now rewrite _parse_instruction_Ok, E.
  - intros rung. do 2 eexists. apply rung_to_expression_Ok.
  - intros rung index. eexists. apply rung_to_st_Ok.
  - exists (blocks_of_text text). split.
    + apply blocks_from_length.
    + apply convert_text_to_st_Ok.
Qed.

Example malformed_rungs_sample :
  convert_text_to_st
    ("AND X1" ++ nl ++ "FOO" ++ nl ++ nl ++ "OR X2" ++ nl ++ "OUT Y0" ++ nl
     ++ "Rung 3" ++ nl ++ "SET")%string
  = Ok ("(* Rung 1: no coil found *)" ++ nl ++ nl
        ++ "(* Rung 2 *)" ++ nl ++ "Y0 := OR X2;" ++ nl ++ nl
        ++ "(* Rung 3 *)" ++ nl ++ "IF  THEN  := TRUE; END_IF;" ++ nl)%string.
Proof. vm_compute. reflexivity. Qed.

(** *** The unsupported-coil branch *)

Lemma coil_statement_last_char op coil expr stmt :
  coil_statement op coil expr stmt -> last_char stmt = Some ";"%char.
Proof.
  intros H. destruct H;
    unfold out_statement, outnot_statement, set_statement, rst_statement;
    rewrite <- !append_assoc;
    (rewrite last_char_append; [reflexivity | discriminate]).
Qed.

Lemma unsupported_comment_last_char opcode :
  last_char (unsupported_comment opcode) = Some ")"%char.
Proof.
  unfold unsupported_comment. rewrite <- append_assoc.
  rewrite last_char_append; [reflexivity | discriminate].
Qed.

Lemma header_block_not_no_coil (index : Z) (stmt : string) :
  join nl [rung_header index; stmt] <> no_coil_comment index.
Proof.
  unfold join, rung_header, no_coil_comment. cbn [String.concat].
  rewrite !append_assoc. intros D.
  apply (append_cancel_l "(* Rung ") in D. apply append_cancel_l in D.
  cbn in D. discriminate D.
Qed.

Lemma header_block_inj (index : Z) (s1 s2 : string) :
  join nl [rung_header index; s1] = join nl [rung_header index; s2] -> s1 = s2.
Proof.
  unfold join. cbn [String.concat]. intros D.
  apply append_cancel_l in D. now apply (append_cancel_l nl) in D.
Qed.

(** C9: for a rung of the document, a coil assignment that
    [rung_to_expression] records has one of the opcodes OUT, OUTNOT,
    SET, RST; so [rung_to_st] returns either the no-coil comment or
    the header followed by one of the four statements, and never the
    header followed by an [(* Unsupported coil opcode ... *)] line. *)
Theorem unsupported_branch_unreachable (text : string) (rung : list string) (index : Z) :
  In rung (split_rungs text) ->
  (forall expr op coil,
     rung_to_expression rung = Ok (expr, Some (op, coil)) ->
     In op ["OUT"; "OUTNOT"; "SET"; "RST"]%string)
  /\ (exists block,
        rung_to_st rung index = Ok block
        /\ (block = no_coil_comment index
            \/ exists op coil expr stmt,
                 coil_statement op coil expr stmt
                 /\ block = join nl [rung_header index; stmt]))
  /\ forall opcode,
       rung_to_st rung index
       <> Ok (join nl [rung_header index; unsupported_comment opcode]).
Proof.
  intros _.
  assert (A : forall expr op coil,
             rung_to_expression rung = Ok (expr, Some (op, coil)) ->
             in_set op coil_ops = true).
  { intros expr op coil H. rewrite rung_to_expression_Ok in H.
    injection H as _ H. now apply recorded_coil_opcode in H. }
  assert (B : exists block,
             rung_to_st rung index = Ok block
             /\ (block = no_coil_comment index
                 \/ exists op coil expr stmt,
                      coil_statement op coil expr stmt
                      /\ block = join nl [rung_header index; stmt])).
  { pose proof (rung_to_expression_Ok rung) as R.
    destruct (snd (run_steps rung ([], None))) as [[op coil]|] eqn:E.
    - destruct (rung_to_st_coil _ index _ _ _ R (A _ _ _ R)) as [stmt [Hs Hb]].
      exists (join nl [rung_header index; stmt]). split; [exact Hb|].
      right. now exists op, coil, (join " " (fst (run_steps rung ([], None)))), stmt.
    - exists (no_coil_comment index). split; [|now left].
      apply (rung_to_st_no_coil _ _ _ R). }
  split; [|split; [exact B|]].
  - intros expr op coil H. apply A in H. apply in_set_In in H.
    cbn in H. cbn. tauto.
  - intros opcode H. destruct B as [block [Hb D]].
    rewrite Hb in H. injection H as H. subst block.
    destruct D as [D | [op [coil [expr [stmt [Hs D]]]]]].
    + now apply header_block_not_no_coil in D.
    + apply header_block_inj in D.
      apply coil_statement_last_char in Hs. rewrite <- D in Hs.
      rewrite unsupported_comment_last_char in Hs. discriminate Hs.
Qed.

Lemma unsupported_branch_unreachable_witness :
  In ["LD X0"; "RST Y0"]%string
    (split_rungs ("Network 1" ++ nl ++ "LD X0" ++ nl ++ "RST Y0")%string)
  /\ forall opcode,
       rung_to_st ["LD X0"; "RST Y0"]%string 1
       <> Ok (join nl [rung_header 1; unsupported_comment opcode]).
Proof.
  assert (H : In ["LD X0"; "RST Y0"]%string
                (split_rungs ("Network 1" ++ nl ++ "LD X0" ++ nl ++ "RST Y0")%string)).
  { left. reflexivity. }
  split; [exact H|].
  exact (proj2 (proj2 (unsupported_branch_unreachable _ _ 1 H))).
Defined.

(** *** Rungs with a coil and no logic instruction *)

(** C10: in a rung that has a coil instruction and no LD, AND or OR
    family instruction the expression is the empty string, and the
    block is the header followed by the statement of the last coil
    with that empty expression; the rung [OUT Y0] with index 1 gives
    [(* Rung 1 *)] followed by [Y0 := ;]. *)
Theorem coil_only_rung :
  (forall rung,
     (forall instr, In instr rung -> is_logic instr = false) ->
     filter is_coil rung <> [] ->
     exists op coil,
       instruction_of (last (filter is_coil rung) ""%string) = (op, coil)
       /\ rung_to_expression rung = Ok (""%string, Some (op, coil))
       /\ forall index,
            exists stmt,
              coil_statement op coil ""%string stmt
              /\ rung_to_st rung index = Ok (join nl [rung_header index; stmt]))
  /\ rung_to_expression ["OUT Y0"%string] = Ok (""%string, Some ("OUT", "Y0")%string)
  /\ rung_to_st ["OUT Y0"%string] 1
     = Ok ("(* Rung 1 *)" ++ nl ++ "Y0 := ;")%string
  /\ convert_text_to_st "OUT Y0"
     = Ok ("(* Rung 1 *)" ++ nl ++ "Y0 := ;" ++ nl)%string.
Proof.
  split; [|repeat split; vm_compute; reflexivity].
  intros rung L N.
  set (z := last (filter is_coil rung) ""%string).
  assert (Hz : is_coil z = true).
  { apply (proj2 (proj1 (filter_In _ _ _) (last_In _ ""%string N))). }
  destruct (instruction_of z) as [op coil] eqn:Ez.
  exists op, coil.
  assert (R : rung_to_expression rung = Ok (""%string, Some (op, coil))).
  { rewrite rung_to_expression_Ok.
    rewrite (run_steps_no_logic rung [] None L).
    rewrite (run_steps_last_coil _ _ _ N). cbn [snd]. fold z.
    now rewrite Ez. }
  assert (I : in_set op coil_ops = true).
  { unfold is_coil, opcode_of in Hz. now rewrite Ez in Hz. }
  split; [reflexivity | split; [exact R|]].
  intros index. apply (rung_to_st_coil _ index _ _ _ R I).
Qed.

Lemma coil_only_rung_witness :
  (forall instr, In instr ["NOP"; "SET M0"; "rst M1"]%string -> is_logic instr = false)
  /\ filter is_coil ["NOP"; "SET M0"; "rst M1"]%string <> []
  /\ exists op coil,
       instruction_of (last (filter is_coil ["NOP"; "SET M0"; "rst M1"]%string) ""%string)
       = (op, coil)
       /\ rung_to_expression ["NOP"; "SET M0"; "rst M1"]%string
          = Ok (""%string, Some (op, coil))
       /\ forall index,
            exists stmt,
              coil_statement op coil ""%string stmt
              /\ rung_to_st ["NOP"; "SET M0"; "rst M1"]%string index
                 = Ok (join nl [rung_header index; stmt]).
Proof.
  assert (L : forall instr, In instr ["NOP"; "SET M0"; "rst M1"]%string ->
                            is_logic instr = false).
  { intros instr [<- | [<- | [<- | []]]]; reflexivity. }
  assert (N : filter is_coil ["NOP"; "SET M0"; "rst M1"]%string <> []).
  { vm_compute. discriminate. }
  split; [exact L | split; [exact N|]].
  exact (proj1 coil_only_rung _ L N).
Defined.

(** ** Further properties: instruction parsing *)

Section CharacterMaps.

Variable f : ascii -> ascii.
Hypothesis f_isspace : forall c, isspace (f c) = isspace c.

Lemma map_chars_lstrip (s : string) :
  lstrip (map_chars f s) = map_chars f (lstrip s).
Proof.
  induction s as [|c s IH]; [reflexivity|].
  cbn [map_chars lstrip]. rewrite f_isspace.
  destruct (isspace c); [exact IH | reflexivity].
Qed.



Lemma map_chars_span_word (s : string) :
  span_word (map_chars f s)
  = (map_chars f (fst (span_word s)), map_chars f (snd (span_word s))).
Proof.
  induction s as [|c s IH]; [reflexivity|].
  cbn [map_chars span_word]. rewrite f_isspace.
  destruct (isspace c); [reflexivity|].
  rewrite IH. now destruct (span_word s).
Qed.

Lemma map_chars_split_maxsplit1 (s : string) :
  split_maxsplit1 (map_chars f s) = map (map_chars f) (split_maxsplit1 s).
Proof.
  unfold split_maxsplit1. rewrite map_chars_lstrip.
  destruct (lstrip s) as [|c s1]; [reflexivity|].
  cbv beta iota.
  cbn [map_chars].
  change (String (f c) (map_chars f s1)) with (map_chars f (String c s1)).
  rewrite map_chars_span_word.
  destruct (span_word (String c s1)) as [w t]. cbn [fst snd].
  rewrite map_chars_lstrip.
  now destruct (lstrip t).
Qed.

Lemma map_chars_no_space (s : string) :
  no_space (map_chars f s) = no_space s.
Proof.
  induction s as [|c s IH]; [reflexivity|].
  cbn [map_chars no_space]. now rewrite f_isspace, IH.
Qed.

End CharacterMaps.

Section ParsingProperties.

Ltac each_ascii c :=
  destruct c as [[|] [|] [|] [|] [|] [|] [|] [|]]; reflexivity.

Lemma upper_char_isspace (c : ascii) : isspace (upper_char c) = isspace c.
Proof. each_ascii c. Qed.


Lemma upper_char_idempotent (c : ascii) : upper_char (upper_char c) = upper_char c.
Proof. each_ascii c. Qed.


Lemma upper_map_chars (s : string) : upper s = map_chars upper_char s.
Proof. induction s as [|c s IH]; cbn; [reflexivity | now rewrite IH]. Qed.


Lemma upper_idempotent (s : string) : upper (upper s) = upper s.
Proof.
  induction s as [|c s IH]; cbn; [reflexivity|].
  now rewrite upper_char_idempotent, IH.
Qed.


Lemma lstrip_idempotent (s : string) : lstrip (lstrip s) = lstrip s.
Proof. apply lstrip_fixed, lstrip_head_ok. Qed.

Lemma strip_lstrip (s : string) : strip (lstrip s) = strip s.
Proof. unfold strip. now rewrite lstrip_idempotent. Qed.

Lemma rstrip_nonempty (s : string) :
  head_ok s -> s <> ""%string -> rstrip s <> ""%string.
Proof.
  destruct s as [|c s]; [congruence|]. cbn [head_ok rstrip]. intros H _.
  destruct (rstrip s); [rewrite H|]; discriminate.
Qed.

Lemma strip_empty_iff (s : string) :
  strip s = ""%string <-> lstrip s = ""%string.
Proof.
  unfold strip. split.
  - intros H. destruct (string_dec (lstrip s) ""%string) as [E|N]; [exact E|].
    exfalso. apply (rstrip_nonempty (lstrip s)); auto using lstrip_head_ok.
  - now intros ->.
Qed.

Lemma span_word_no_space (s : string) : no_space (fst (span_word s)) = true.
Proof.
  induction s as [|c s IH]; [reflexivity|].
  cbn [span_word]. destruct (isspace c) eqn:E; [reflexivity|].
  destruct (span_word s) as [w t]. cbn [fst no_space] in *. now rewrite E, IH.
Qed.

Lemma span_word_nonempty (s : string) :
  head_ok s -> s <> ""%string -> fst (span_word s) <> ""%string.
Proof.
  destruct s as [|c s]; [congruence|]. cbn [head_ok span_word]. intros -> _.
  destruct (span_word s). discriminate.
Qed.

Lemma span_word_word (w : string) (c : ascii) (t : string) :
  no_space w = true -> isspace c = true ->
  span_word (w ++ String c t) = (w, String c t).
Proof.
  intros Hw Hc. induction w as [|a w IH].
  - cbn. now rewrite Hc.
  - cbn [no_space] in Hw. apply andb_true_iff in Hw. destruct Hw as [Ha Hw].
    apply negb_true_iff in Ha. cbn [append span_word]. now rewrite Ha, (IH Hw).
Qed.

(** The parts [split_maxsplit1] cuts a line into, in terms of the
    first word of the line. *)
Lemma split_maxsplit1_parts (s : string) :
  lstrip s <> ""%string ->
  split_maxsplit1 s
  = match lstrip (snd (span_word (lstrip s))) with
    | EmptyString => [fst (span_word (lstrip s))]
    | t' => [fst (span_word (lstrip s)); t']
    end.
Proof.
  intros N. unfold split_maxsplit1.
  destruct (lstrip s) as [|c s1]; [congruence|].
  now destruct (span_word (String c s1)).
Qed.

Lemma _parse_instruction_parts (instr : string) :
  lstrip instr <> ""%string ->
  _parse_instruction instr
  = Ok (upper (fst (span_word (lstrip instr))),
        strip (snd (span_word (lstrip instr)))).
Proof.
  intros N. unfold _parse_instruction.
  rewrite (split_maxsplit1_parts _ N).
  destruct (lstrip (snd (span_word (lstrip instr)))) as [|c t'] eqn:E.
  - cbn. do 2 f_equal. symmetry. now apply strip_empty_iff.
  - cbv [truthy negb getitem nth_error bind length Nat.ltb Nat.leb].
    do 2 f_equal. rewrite <- E. apply strip_lstrip.
Qed.

Lemma _parse_instruction_blank (instr : string) :
  lstrip instr = ""%string ->
  _parse_instruction instr = Ok (""%string, ""%string).
Proof.
  intros N. unfold _parse_instruction, split_maxsplit1. now rewrite N.
Qed.

End ParsingProperties.

(** X1: a line made of a word without white space, a white-space
    character and any text is parsed into the upper-cased word and the
    stripped text. *)
Theorem parse_word_and_operand (w : string) (c : ascii) (t : string) :
  w <> ""%string -> no_space w = true -> isspace c = true ->
  _parse_instruction (w ++ String c t) = Ok (upper w, strip t).
Proof.
  intros N Hw Hc.
  assert (L : lstrip (w ++ String c t) = (w ++ String c t)%string).
  { apply lstrip_fixed. destruct w as [|a w]; [congruence|].
    cbn [no_space] in Hw. apply andb_true_iff in Hw. destruct Hw as [Ha _].
    now apply negb_true_iff in Ha. }
  rewrite _parse_instruction_parts.
  - rewrite L, (span_word_word _ _ _ Hw Hc). cbn [fst snd].
    do 2 f_equal. unfold strip. cbn [lstrip]. now rewrite Hc.
  - rewrite L. destruct w; [congruence | discriminate].
Qed.

Lemma parse_word_and_operand_witness :
  "andn"%string <> ""%string /\ no_space "andn" = true
  /\ isspace "009"%char = true
  /\ _parse_instruction ("andn" ++ String "009"%char "  X1 ")
     = Ok (upper "andn", strip "  X1 ").
Proof.
  split; [discriminate | split; [reflexivity | split; [reflexivity|]]].
  apply (parse_word_and_operand "andn" "009"%char "  X1 ");
    [discriminate | reflexivity | reflexivity].
Defined.

(** X2: whatever the line, the opcode [_parse_instruction] returns is
    upper-case and free of white space, the operand is stripped, the
    opcode is empty exactly when the line is blank, and then the
    operand is empty too. *)
Theorem parse_result_shape (instr op operand : string) :
  _parse_instruction instr = Ok (op, operand) ->
  upper op = op
  /\ no_space op = true
  /\ strip operand = operand
  /\ (op = ""%string <-> strip instr = ""%string)
  /\ (op = ""%string -> operand = ""%string).
Proof.
  intros H. destruct (string_dec (lstrip instr) ""%string) as [B|N].
  - rewrite (_parse_instruction_blank _ B) in H. injection H as <- <-.
    repeat split; try reflexivity. intros _. now apply strip_empty_iff.
  - rewrite (_parse_instruction_parts _ N) in H. injection H as <- <-.
    assert (W : fst (span_word (lstrip instr)) <> ""%string).
    { apply span_word_nonempty; [apply lstrip_head_ok | exact N]. }
    assert (U : upper (fst (span_word (lstrip instr))) <> ""%string).
    { destruct (fst (span_word (lstrip instr))); [congruence | discriminate]. }
    repeat split.
    + apply upper_idempotent.
    + rewrite upper_map_chars, (map_chars_no_space _ upper_char_isspace).
      apply span_word_no_space.
    + apply strip_idempotent.
    + intros E. congruence.
    + intros E. apply strip_empty_iff in E. congruence.
    + intros E. congruence.
Qed.

Lemma parse_result_shape_witness :
  _parse_instruction "  outNot   y 1  " = Ok ("OUTNOT", "y 1")%string
  /\ upper "OUTNOT" = "OUTNOT"%string
  /\ no_space "OUTNOT" = true
  /\ strip "y 1" = "y 1"%string
  /\ ("OUTNOT"%string = ""%string <-> strip "  outNot   y 1  " = ""%string)
  /\ ("OUTNOT"%string = ""%string -> "y 1"%string = ""%string).
Proof.
  split; [reflexivity|].
  apply (parse_result_shape "  outNot   y 1  " "OUTNOT" "y 1"). reflexivity.
Defined.



(** ** Further properties: segmentation *)

Section SegmentationProperties.

Lemma concat_flush (current : list string) :
  concat (flush [] current) = current.
Proof. destruct current; cbn; [reflexivity | now rewrite app_nil_r]. Qed.

Lemma concat_segment_from (lines current : list string) :
  concat (segment_from lines current)
  = current ++ map strip (filter is_content lines).
Proof.
  revert current. induction lines as [|raw rest IH]; intros current.
  - rewrite segment_from_nil, concat_flush. cbn. now rewrite app_nil_r.
  - cbn [filter]. unfold is_content at 1.
    destruct (is_separator raw) eqn:E; cbn [negb].
    + rewrite (segment_from_separator _ _ _ E), concat_app, concat_flush, IH.
      reflexivity.
    + rewrite (segment_from_content _ _ _ E), IH, <- app_assoc. reflexivity.
Qed.

Lemma segment_from_all_content (lines current : list string) :
  Forall (fun l => is_content l = true) lines ->
  segment_from lines current = flush [] (current ++ map strip lines).
Proof.
  intros H. revert current.
  induction H as [|raw rest Hraw _ IH]; intros current.
  - rewrite segment_from_nil. cbn. now rewrite app_nil_r.
  - unfold is_content in Hraw. apply negb_true_iff in Hraw.
    rewrite (segment_from_content _ _ _ Hraw), IH, <- app_assoc. reflexivity.
Qed.

Lemma splitlines_join_then (R : list string) (t : string) :
  Forall (fun l => no_linebreak l = true) R -> R <> [] ->
  splitlines (join nl R ++ nl ++ t)%string = R ++ splitlines t.
Proof.
  induction R as [|x R IH]; intros H N; [congruence|].
  inversion H as [|? ? Hx HR]; subst.
  destruct R as [|y R].
  - cbn [join String.concat app]. now apply splitlines_line.
  - change (join nl (x :: y :: R)) with (x ++ nl ++ join nl (y :: R))%string.
    rewrite !append_assoc, (splitlines_line _ _ Hx).
    rewrite (IH HR); [reflexivity | discriminate].
Qed.

Lemma splitlines_blank_line (t : string) :
  splitlines (nl ++ t)%string = ""%string :: splitlines t.
Proof. reflexivity. Qed.

Lemma stored_rung_alone (R : list string) :
  R <> [] -> Forall stored_line R -> segment R = [R].
Proof.
  intros N S. unfold segment. rewrite (segment_from_stored_lines _ _ S).
  destruct R; [congruence | reflexivity].
Qed.

Lemma stored_lines_no_linebreak (R : list string) :
  Forall stored_line R -> Forall (fun l => no_linebreak l = true) R.
Proof. apply Forall_impl. intros l H. apply H. Qed.

(** Rungs of stored lines, written back as text, are read back as
    they were. *)
Lemma split_rungs_render (rungs : list (list string)) :
  Forall (fun r => r <> [] /\ Forall stored_line r) rungs ->
  split_rungs (render_rungs rungs) = rungs.
Proof.
  induction rungs as [|R rungs IH]; intros H; [reflexivity|].
  inversion H as [|? ? [N S] Hrest]; subst.
  specialize (IH Hrest). rewrite split_rungs_segment in *.
  destruct rungs as [|R' rungs].
  - unfold render_rungs. cbn [map join String.concat].
    rewrite splitlines_join.
    + now apply stored_rung_alone.
    + eapply Forall_impl; [|exact S]. intros l Hl. split.
      * apply Hl.
      * now apply stored_line_nonempty.
  - change (render_rungs (R :: R' :: rungs))
      with (join nl R ++ blank_line_sep ++ render_rungs (R' :: rungs))%string.
    unfold blank_line_sep. rewrite (append_assoc nl nl).
    rewrite (splitlines_join_then _ _ (stored_lines_no_linebreak _ S) N).
    rewrite splitlines_blank_line.
    unfold segment. rewrite (segment_from_cut R ""%string _ [] eq_refl).
    fold (segment R). fold (segment (splitlines (render_rungs (R' :: rungs)))).
    rewrite IH, (stored_rung_alone _ N S). reflexivity.
Qed.

End SegmentationProperties.

(** X4: segmentation neither loses, repeats nor reorders content: the
    rungs of a text, put end to end, are the content lines of the text
    in their order, each stripped. *)
Theorem content_lines_preserved (text : string) :
  concat (split_rungs text)
  = map strip (filter is_content (splitlines text)).
Proof.
  rewrite split_rungs_segment. unfold segment.
  now rewrite concat_segment_from.
Qed.

(** X5: a text all of whose lines are content lines is one rung, made
    of its stripped lines: only a blank line or a boundary marker ends
    a rung. *)
Theorem content_only_text_is_one_rung (text : string) :
  splitlines text <> [] ->
  Forall (fun l => is_content l = true) (splitlines text) ->
  split_rungs text = [map strip (splitlines text)].
Proof.
  intros N H. rewrite split_rungs_segment. unfold segment.
  rewrite (segment_from_all_content _ _ H). cbn [app].
  destruct (splitlines text); [congruence | reflexivity].
Qed.

Lemma content_only_text_is_one_rung_witness :
  splitlines ("  LD X0" ++ String CR nl ++ "AND X1 " ++ nl ++ "OUT Y0" ++ nl)%string <> []
  /\ Forall (fun l => is_content l = true)
       (splitlines ("  LD X0" ++ String CR nl ++ "AND X1 " ++ nl ++ "OUT Y0" ++ nl)%string)
  /\ split_rungs ("  LD X0" ++ String CR nl ++ "AND X1 " ++ nl ++ "OUT Y0" ++ nl)%string
     = [map strip
          (splitlines ("  LD X0" ++ String CR nl ++ "AND X1 " ++ nl ++ "OUT Y0" ++ nl)%string)].
Proof.
  assert (N : splitlines ("  LD X0" ++ String CR nl ++ "AND X1 " ++ nl ++ "OUT Y0" ++ nl)%string
              <> []).
  { vm_compute. discriminate. }
  assert (H : Forall (fun l => is_content l = true)
                (splitlines ("  LD X0" ++ String CR nl ++ "AND X1 " ++ nl
                             ++ "OUT Y0" ++ nl)%string)).
  { vm_compute. repeat constructor. }
  split; [exact N | split; [exact H|]].
  exact (content_only_text_is_one_rung _ N H).
Defined.

(** X6: the rungs of any text, written back with their lines joined
    by line feeds and a blank line between rungs, are segmented into
    the same rungs, and that text is translated to the same output. *)
Theorem rendered_rungs_round_trip (text : string) :
  split_rungs (render_rungs (split_rungs text)) = split_rungs text
  /\ convert_text_to_st (render_rungs (split_rungs text))
     = convert_text_to_st text.
Proof.
  assert (E : split_rungs (render_rungs (split_rungs text)) = split_rungs text).
  { apply split_rungs_render, split_rungs_stored. }
  split; [exact E|].
  unfold convert_text_to_st. now rewrite E.
Qed.

Example rendered_rungs_sample :
  render_rungs
    (split_rungs ("Rung 1" ++ nl ++ " LD X0" ++ nl ++ "OUT Y0 " ++ nl ++ nl ++ nl
                  ++ "network 2" ++ nl ++ "LD X1" ++ String CR nl ++ "SET Y1")%string)
  = ("LD X0" ++ nl ++ "OUT Y0" ++ nl ++ nl ++ "LD X1" ++ nl ++ "SET Y1")%string.
Proof. vm_compute. reflexivity. Qed.

(** ** Further properties: the expression builder *)

Section ExpressionProperties.

Lemma prefix_nil (s : string) : String.prefix ""%string s = true.
Proof. now destruct s. Qed.

Lemma prefix_append (p s x : string) :
  String.prefix p s = true -> String.prefix p (s ++ x) = true.
Proof.
  revert s. induction p as [|a p IH]; intros s H.
  - apply prefix_nil.
  - destruct s as [|b s]; [discriminate H|].
    cbn [append String.prefix] in *.
    destruct (ascii_dec a b); [now apply IH | discriminate H].
Qed.

Lemma combinator_fragment_append (fragment x : string) :
  combinator_fragment fragment = true ->
  combinator_fragment (fragment ++ x) = true.
Proof.
  unfold combinator_fragment, startswith. intros H.
  apply orb_true_iff in H. apply orb_true_iff.
  destruct H as [H | H]; [left | right]; now apply prefix_append.
Qed.

Lemma load_step (op operand : string) p c :
  in_set op load_ops = true ->
  expression_step op operand (p, c) = ([load_fragment op operand], c).
Proof.
  intros H. apply in_set_In in H. cbn in H.
  destruct H as [<- | [<- | [<- | []]]]; reflexivity.
Qed.

Lemma and_or_step (op operand : string) p c :
  in_set op (and_ops ++ or_ops) = true ->
  exists fragment,
    combinator_fragment fragment = true
    /\ expression_step op operand (p, c) = (p ++ [fragment], c).
Proof.
  intros H. apply in_set_In in H. cbn in H.
  destruct H as [<- | [<- | [<- | [<- | [<- | [<- | []]]]]]];
    eexists; (split; [|reflexivity]);
    unfold combinator_fragment, startswith; cbn;
    rewrite ?prefix_nil; destruct operand; reflexivity.
Qed.

Lemma fst_run_steps_coil (rung : list string) p c c' :
  fst (run_steps rung (p, c)) = fst (run_steps rung (p, c')).
Proof. now rewrite (run_steps_split rung p c), (run_steps_split rung p c'). Qed.

(** Between two LD-family instructions every fragment added starts
    with AND or OR, one fragment per AND/OR-family instruction. *)
Lemma run_steps_no_load (rung : list string) p c :
  (forall instr, In instr rung -> is_load instr = false) ->
  exists fragments,
    fst (run_steps rung (p, c)) = p ++ fragments
    /\ Forall (fun x => combinator_fragment x = true) fragments
    /\ length fragments = length (filter is_and_or rung).
Proof.
  revert p c. induction rung as [|instr rest IH]; intros p c H.
  - exists []. cbn. now rewrite app_nil_r.
  - rewrite run_steps_cons. cbn [filter].
    assert (Hrest : forall i, In i rest -> is_load i = false).
    { intros i Hi. apply H. now right. }
    assert (L : is_load instr = false) by (apply H; now left).
    destruct (is_and_or instr) eqn:A.
    + destruct (and_or_step _ (snd (instruction_of instr)) p c A)
        as [fragment [Hf Hs]].
      unfold opcode_of in Hs. rewrite Hs.
      destruct (IH (p ++ [fragment]) c Hrest) as [frs [E [F N]]].
      exists (fragment :: frs). rewrite E, <- app_assoc. cbn [app length].
      repeat split; [now constructor | now rewrite N].
    + assert (G : in_set (opcode_of instr) logic_ops = false).
      { unfold logic_ops. rewrite in_set_app.
        unfold is_load in L. unfold is_and_or in A. now rewrite L, A. }
      pose proof (not_logic_step _ (snd (instruction_of instr)) p c G) as S.
      unfold opcode_of in S.
      destruct (expression_step _ _ (p, c)) as [p' c']. cbn [fst] in S. subst p'.
      apply (IH p c' Hrest).
Qed.

Lemma join_first (sep x : string) (rest : list string) :
  exists tail, join sep (x :: rest) = (x ++ tail)%string.
Proof.
  destruct rest as [|y rest].
  - exists ""%string. cbn. now rewrite append_nil_r.
  - now exists (sep ++ join sep (y :: rest))%string.
Qed.

End ExpressionProperties.

(** X7: an LD-family instruction starts the expression afresh: the
    expression of a rung is the one of the rung cut at that
    instruction, whatever stood before it. *)
Theorem load_discards_what_precedes (pre post : list string) (ld : string) :
  is_load ld = true ->
  exists expr coil coil',
    rung_to_expression (pre ++ ld :: post) = Ok (expr, coil)
    /\ rung_to_expression (ld :: post) = Ok (expr, coil').
Proof.
  intros L. unfold is_load, opcode_of in L.
  exists (join " " (fst (run_steps (ld :: post) ([], None)))),
    (snd (run_steps (pre ++ ld :: post) ([], None))),
    (snd (run_steps (ld :: post) ([], None))).
  split; [|apply rung_to_expression_Ok].
  rewrite rung_to_expression_Ok. do 3 f_equal.
  rewrite run_steps_app, !run_steps_cons.
  destruct (run_steps pre ([], None)) as [p c].
  rewrite !(load_step _ _ _ _ L). apply fst_run_steps_coil.
Qed.

Lemma load_discards_what_precedes_witness :
  is_load "LDN X7" = true
  /\ exists expr coil coil',
       rung_to_expression (["LD X0"; "AND X1"; "OUT Y0"] ++ "LDN X7" :: ["OR X8"])
       = Ok (expr, coil)
       /\ rung_to_expression ("LDN X7" :: ["OR X8"]) = Ok (expr, coil').
Proof.
  split; [reflexivity|].
  apply (load_discards_what_precedes ["LD X0"; "AND X1"; "OUT Y0"] ["OR X8"] "LDN X7").
  reflexivity.
Defined.



Example expression_after_last_load_sample :
  rung_to_expression ["LD X9"; "LDN X0"; "OR X1"; "OUT Y0"; "ANDN X2"]
  = Ok ("NOT X0 OR X1 AND NOT X2", Some ("OUT", "Y0"))%string.
Proof. vm_compute. reflexivity. Qed.

(** X9: a rung without any LD-family instruction is still translated:
    its expression is made of one fragment per AND/OR-family
    instruction, so it is empty or starts with [AND ] or [OR ], an
    operator without a left operand. *)
Theorem expression_without_load (rung : list string) :
  (forall instr, In instr rung -> is_load instr = false) ->
  exists fragments coil,
    Forall (fun x => combinator_fragment x = true) fragments
    /\ length fragments = length (filter is_and_or rung)
    /\ rung_to_expression rung = Ok (join " " fragments, coil)
    /\ (join " " fragments = ""%string
        \/ combinator_fragment (join " " fragments) = true).
Proof.
  intros H.
  destruct (run_steps_no_load rung [] None H) as [frs [E [F N]]].
  exists frs, (snd (run_steps rung ([], None))).
  repeat split; try assumption.
  - rewrite rung_to_expression_Ok. now rewrite E.
  - destruct frs as [|x frs]; [now left | right].
    destruct (join_first " " x frs) as [tail ->].
    apply combinator_fragment_append. now inversion F.
Qed.

Lemma expression_without_load_witness :
  (forall instr, In instr ["AND X1"; "ORN X2"; "OUT Y0"] -> is_load instr = false)
  /\ exists fragments coil,
       Forall (fun x => combinator_fragment x = true) fragments
       /\ length fragments = length (filter is_and_or ["AND X1"; "ORN X2"; "OUT Y0"])
       /\ rung_to_expression ["AND X1"; "ORN X2"; "OUT Y0"]
          = Ok (join " " fragments, coil)
       /\ (join " " fragments = ""%string
           \/ combinator_fragment (join " " fragments) = true).
Proof.
  assert (H : forall instr, In instr ["AND X1"; "ORN X2"; "OUT Y0"] ->
                            is_load instr = false).
  { intros instr [<- | [<- | [<- | []]]]; reflexivity. }
  split; [exact H|].
  exact (expression_without_load _ H).
Defined.

Example expression_without_load_sample :
  rung_to_st ["AND X1"; "ORN X2"; "OUT Y0"] 1
  = Ok ("(* Rung 1 *)" ++ nl ++ "Y0 := AND X1 OR NOT X2;")%string.
Proof. vm_compute. reflexivity. Qed.

(** ** Further properties: the lines of a block *)

Section BlockLines.

Lemma no_linebreak_append (a b : string) :
  no_linebreak (a ++ b) = no_linebreak a && no_linebreak b.
Proof.
  induction a as [|c a IH]; [reflexivity|].
  cbn [append no_linebreak]. now rewrite IH, andb_assoc.
Qed.

Lemma no_linebreak_digits (d : Decimal.uint) :
  no_linebreak (NilEmpty.string_of_uint d) = true.
Proof. induction d; cbn [NilEmpty.string_of_uint no_linebreak]; auto. Qed.

Lemma no_linebreak_uint (d : Decimal.uint) :
  no_linebreak (NilZero.string_of_uint d) = true.
Proof.
  unfold NilZero.string_of_uint.
  destruct d; try reflexivity; apply (no_linebreak_digits (_ d)).
Qed.

Lemma no_linebreak_format_int (n : Z) : no_linebreak (format_int n) = true.
Proof.
  unfold format_int, NilZero.string_of_int.
  destruct (Z.to_int n) as [d | d].
  - apply no_linebreak_uint.
  - cbn [no_linebreak]. now rewrite no_linebreak_uint.
Qed.

Lemma no_linebreak_join (sep : string) (parts : list string) :
  no_linebreak sep = true ->
  Forall (fun x => no_linebreak x = true) parts ->
  no_linebreak (join sep parts) = true.
Proof.
  intros Hs H. induction H as [|x rest Hx Hrest IH]; [reflexivity|].
  destruct rest as [|y rest]; [exact Hx|].
  change (join sep (x :: y :: rest)) with (x ++ sep ++ join sep (y :: rest))%string.
  now rewrite !no_linebreak_append, Hx, Hs, IH.
Qed.

Lemma span_word_no_linebreak (s : string) :
  no_linebreak s = true -> no_linebreak (snd (span_word s)) = true.
Proof.
  induction s as [|c s IH]; [reflexivity|]. intros H.
  cbn [span_word]. destruct (isspace c); [exact H|].
  cbn [no_linebreak] in H. apply andb_true_iff in H. destruct H as [_ H].
  specialize (IH H). now destruct (span_word s).
Qed.

Lemma operand_no_linebreak (instr : string) :
  no_linebreak instr = true ->
  no_linebreak (snd (instruction_of instr)) = true.
Proof.
  intros H. pose proof (_parse_instruction_Ok instr) as P.
  destruct (string_dec (lstrip instr) ""%string) as [B|N].
  - rewrite (_parse_instruction_blank _ B) in P. injection P as P. now rewrite <- P.
  - rewrite (_parse_instruction_parts _ N) in P. injection P as P. rewrite <- P.
    cbn [snd]. now apply strip_no_linebreak, span_word_no_linebreak,
      lstrip_no_linebreak.
Qed.

Lemma expression_step_no_linebreak (op operand : string) st :
  no_linebreak operand = true ->
  state_no_linebreak st ->
  state_no_linebreak (expression_step op operand st).
Proof.
  intros Ho [Hp Hc]. destruct st as [p c]. cbn [fst snd] in *.
  assert (F : forall pre, no_linebreak pre = true ->
              Forall (fun x => no_linebreak x = true) (p ++ [(pre ++ operand)%string])).
  { intros pre Hpre. apply Forall_app. split; [assumption|].
    repeat constructor. now rewrite no_linebreak_append, Hpre, Ho. }
  rewrite expression_step_unfold.
  destruct (in_set op load_ops); [|destruct (in_set op and_ops);
    [|destruct (in_set op or_ops); [|destruct (in_set op coil_ops)]]].
  - destruct (op =? "LDN")%string; split; cbn [fst snd]; try assumption;
      repeat constructor; assumption.
  - destruct (op =? "ANDN")%string; split; cbn [fst snd]; try assumption;
      now apply F.
  - destruct (op =? "ORN")%string; split; cbn [fst snd]; try assumption;
      now apply F.
  - split; cbn [fst snd]; [assumption|].
    intros op' coil E. injection E as _ <-. exact Ho.
  - now split.
Qed.

Lemma run_steps_no_linebreak (rung : list string) st :
  Forall (fun l => no_linebreak l = true) rung ->
  state_no_linebreak st ->
  state_no_linebreak (run_steps rung st).
Proof.
  intros H. revert st. induction H as [|instr rest Hi _ IH]; intros st S.
  - exact S.
  - rewrite run_steps_cons. apply IH, expression_step_no_linebreak;
      [now apply operand_no_linebreak | exact S].
Qed.

Lemma coil_statement_one_line (op coil expr stmt : string) :
  coil_statement op coil expr stmt ->
  no_linebreak coil = true -> no_linebreak expr = true ->
  no_linebreak stmt = true /\ stmt <> ""%string.
Proof.
  intros H Hc He. split.
  - destruct H;
      unfold out_statement, outnot_statement, set_statement, rst_statement;
      rewrite !no_linebreak_append, Hc, He; reflexivity.
  - intros E. apply coil_statement_last_char in H. now rewrite E in H.
Qed.

Lemma rung_header_one_line (index : Z) :
  no_linebreak (rung_header index) = true.
Proof.
  unfold rung_header.
  now rewrite !no_linebreak_append, no_linebreak_format_int.
Qed.

Lemma no_coil_comment_one_line (index : Z) :
  splitlines (no_coil_comment index) = [no_coil_comment index].
Proof.
  apply splitlines_single.
  - unfold no_coil_comment.
    now rewrite !no_linebreak_append, no_linebreak_format_int.
  - discriminate.
Qed.

End BlockLines.

(** X10: the block of a rung of the document is read back, line by
    line, as the no-coil comment alone, or as the header followed by
    exactly one statement line: no operand taken from a segmented line
    can break the statement over several lines. *)
Theorem block_is_one_or_two_lines (text : string) (rung : list string) (index : Z) :
  In rung (split_rungs text) ->
  exists block,
    rung_to_st rung index = Ok block
    /\ (splitlines block = [no_coil_comment index]
        \/ exists op coil expr stmt,
             coil_statement op coil expr stmt
             /\ splitlines block = [rung_header index; stmt]).
Proof.
  intros HR.
  pose proof (split_rungs_stored text) as F. rewrite Forall_forall in F.
  destruct (F _ HR) as [_ S]. apply stored_lines_no_linebreak in S.
  assert (I : state_no_linebreak (run_steps rung ([], None))).
  { apply run_steps_no_linebreak; [exact S|]. split; [constructor|].
    intros op coil E. discriminate E. }
  destruct I as [Ip Ic].
  pose proof (rung_to_expression_Ok rung) as R.
  destruct (snd (run_steps rung ([], None))) as [[op coil]|] eqn:E.
  - destruct (rung_to_st_coil _ index _ _ _ R (recorded_coil_opcode _ _ _ E))
      as [stmt [Hs Hb]].
    exists (join nl [rung_header index; stmt]). split; [exact Hb|]. right.
    exists op, coil, (join " " (fst (run_steps rung ([], None)))), stmt.
    split; [exact Hs|].
    destruct (coil_statement_one_line _ _ _ _ Hs (Ic _ _ eq_refl)
                (no_linebreak_join " " _ eq_refl Ip)) as [L N].
    cbn [join String.concat].
    rewrite (splitlines_line _ _ (rung_header_one_line index)).
    now rewrite (splitlines_single _ L N).
  - exists (no_coil_comment index). split.
    + apply (rung_to_st_no_coil _ _ _ R).
    + left. apply no_coil_comment_one_line.
Qed.

Lemma block_is_one_or_two_lines_witness :
  In ["LD X0"; "OUT Y 0"]
    (split_rungs ("LD X0" ++ String "011"%char ("OUT Y 0" ++ String "012"%char "")))
  /\ exists block,
       rung_to_st ["LD X0"; "OUT Y 0"] 1 = Ok block
       /\ (splitlines block = [no_coil_comment 1]
           \/ exists op coil expr stmt,
                coil_statement op coil expr stmt
                /\ splitlines block = [rung_header 1; stmt]).
Proof.
  assert (H : In ["LD X0"; "OUT Y 0"]
                (split_rungs ("LD X0" ++ String "011"%char
                                ("OUT Y 0" ++ String "012"%char "")))).
  { vm_compute. tauto. }
  split; [exact H|].
  exact (block_is_one_or_two_lines _ _ 1 H).
Defined.

(** ** Further properties: the PDF front end *)

Section PdfProperties.

Variable E : Type.

Lemma pages_loop_map (pages : list (option string)) (text_parts : list string) :
  Pdf.pages_loop pages text_parts
  = text_parts ++ map Pdf.page_text_or_empty pages.
Proof.
  revert text_parts. induction pages as [|page rest IH]; intros text_parts.
  - cbn. now rewrite app_nil_r.
  - cbn [Pdf.pages_loop map]. now rewrite IH, <- app_assoc.
Qed.

Lemma page_text_or_empty_Some (s : string) :
  Pdf.page_text_or_empty (Some s) = s.
Proof.
  unfold Pdf.page_text_or_empty. destruct (String.eqb_spec s ""%string); congruence.
Qed.

Lemma extract_text_library (library : string -> E + list (option string))
    (pdf_path : string) (pages : list (option string)) :
  library pdf_path = inr pages ->
  Pdf.extract_text E (Some library) pdf_path
  = Pdf.Done (join nl (map Pdf.page_text_or_empty pages)).
Proof.
  intros H. unfold Pdf.extract_text. now rewrite H, pages_loop_map.
Qed.

Lemma pdfs_loop_done pdfplumber (pdf_paths : list string) (texts all_text : list string) :
  Forall2 (fun p t => Pdf.extract_text E pdfplumber p = Pdf.Done t) pdf_paths texts ->
  Pdf.pdfs_loop E pdfplumber pdf_paths all_text = Pdf.Done (all_text ++ texts).
Proof.
  intros H. revert all_text.
  induction H as [|p t ps ts Hp _ IH]; intros all_text.
  - cbn. now rewrite app_nil_r.
  - cbn [Pdf.pdfs_loop]. now rewrite Hp, IH, <- app_assoc.
Qed.

Lemma pdfs_loop_failed pdfplumber (good : list string) (bad : string)
    (rest texts all_text : list string) f :
  Forall2 (fun p t => Pdf.extract_text E pdfplumber p = Pdf.Done t) good texts ->
  Pdf.extract_text E pdfplumber bad = Pdf.Failed f ->
  Pdf.pdfs_loop E pdfplumber (good ++ bad :: rest) all_text = Pdf.Failed f.
Proof.
  intros H B. revert all_text.
  induction H as [|p t ps ts Hp _ IH]; intros all_text.
  - cbn [app Pdf.pdfs_loop]. now rewrite B.
  - cbn [app Pdf.pdfs_loop]. now rewrite Hp, IH.
Qed.

Lemma join_app (sep : string) (l1 l2 : list string) :
  l1 <> [] -> l2 <> [] ->
  join sep (l1 ++ l2) = (join sep l1 ++ sep ++ join sep l2)%string.
Proof.
  intros N1 N2. induction l1 as [|x l1 IH]; [congruence|].
  destruct l1 as [|y l1].
  - destruct l2; [congruence | reflexivity].
  - change (join sep ((x :: y :: l1) ++ l2))
      with (x ++ sep ++ join sep ((y :: l1) ++ l2))%string.
    rewrite IH by discriminate.
    change (join sep (x :: y :: l1)) with (x ++ sep ++ join sep (y :: l1))%string.
    now rewrite !append_assoc.
Qed.

Lemma stored_lines_one_rung (l1 l2 : list string) :
  l1 <> [] -> Forall stored_line l1 -> Forall stored_line l2 ->
  l2 <> [] ->
  split_rungs (join nl l1 ++ nl ++ join nl l2)%string = [l1 ++ l2].
Proof.
  intros N1 S1 S2 N2. rewrite <- (join_app nl l1 l2 N1 N2).
  assert (S : Forall stored_line (l1 ++ l2)) by (apply Forall_app; now split).
  rewrite split_rungs_segment, splitlines_join.
  - apply stored_rung_alone; [|exact S]. destruct l1; [congruence | discriminate].
  - eapply Forall_impl; [|exact S]. intros l Hl. split.
    + apply Hl.
    + now apply stored_line_nonempty.
Qed.

End PdfProperties.

(** X11: when [pdfplumber] could not be imported, converting any
    non-empty list of PDFs fails with the RuntimeError that asks for
    its installation, while the empty list, for which nothing is
    extracted, is converted to the empty string. *)
Theorem conversion_without_pdfplumber (E : Type) (pdf_paths : list string) :
  Pdf.convert_pdfs_to_st E None pdf_paths
  = match pdf_paths with
    | [] => Pdf.Done ""%string
    | _ :: _ =>
        Pdf.Failed
          (Pdf.RuntimeError
             "pdfplumber is required. Install it with `pip install pdfplumber`.")
    end.
Proof. destruct pdf_paths; reflexivity. Qed.

(** X12: conversion is all or nothing: as soon as the extraction of
    one PDF fails, after any number of PDFs that were read, that
    failure is the result and nothing is translated. *)
Theorem first_failure_aborts (E : Type) pdfplumber
    (good : list string) (bad : string) (rest texts : list string) f :
  Forall2 (fun p t => Pdf.extract_text E pdfplumber p = Pdf.Done t) good texts ->
  Pdf.extract_text E pdfplumber bad = Pdf.Failed f ->
  Pdf.convert_pdfs_to_st E pdfplumber (good ++ bad :: rest) = Pdf.Failed f.
Proof.
  intros H B. unfold Pdf.convert_pdfs_to_st.
  now rewrite (pdfs_loop_failed E pdfplumber good bad rest texts [] f H B).
Qed.

Lemma first_failure_aborts_witness :
  Forall2
    (fun p t =>
       Pdf.extract_text nat
         (Some (fun p => if (p =? "a.pdf")%string
                         then inr [Some "LD X0"%string] else inl 7%nat)) p
       = Pdf.Done t)
    ["a.pdf"%string] ["LD X0"%string]
  /\ Pdf.extract_text nat
       (Some (fun p => if (p =? "a.pdf")%string
                       then inr [Some "LD X0"%string] else inl 7%nat)) "b.pdf"
     = Pdf.Failed (Pdf.LibraryError 7%nat)
  /\ Pdf.convert_pdfs_to_st nat
       (Some (fun p => if (p =? "a.pdf")%string
                       then inr [Some "LD X0"%string] else inl 7%nat))
       (["a.pdf"%string] ++ "b.pdf"%string :: ["a.pdf"%string])
     = Pdf.Failed (Pdf.LibraryError 7%nat).
Proof.
  assert (H : Forall2
    (fun p t =>
       Pdf.extract_text nat
         (Some (fun p => if (p =? "a.pdf")%string
                         then inr [Some "LD X0"%string] else inl 7%nat)) p
       = Pdf.Done t)
    ["a.pdf"%string] ["LD X0"%string]).
  { repeat constructor. }
  split; [exact H | split; [reflexivity|]].
  exact (first_failure_aborts nat _ _ "b.pdf" ["a.pdf"%string] _ _ H eq_refl).
Defined.

(** X13: when every PDF is read, the result is the translation of one
    text: the texts of the pages of a PDF joined with line feeds (a
    page without text counting as an empty text), and the texts of the
    PDFs joined with line feeds; the translation itself never fails. *)
Theorem conversion_of_readable_pdfs (E : Type)
    (library : string -> E + list (option string))
    (pdf_paths : list string) (documents : list (list (option string))) :
  Forall2 (fun p pages => library p = inr pages) pdf_paths documents ->
  exists st,
    convert_text_to_st
      (join nl (map (fun pages => join nl (map Pdf.page_text_or_empty pages))
                  documents))
    = Ok st
    /\ Pdf.convert_pdfs_to_st E (Some library) pdf_paths = Pdf.Done st.
Proof.
  intros H.
  set (texts := map (fun pages => join nl (map Pdf.page_text_or_empty pages))
                  documents).
  assert (T : Forall2
                (fun p t => Pdf.extract_text E (Some library) p = Pdf.Done t)
                pdf_paths texts).
  { subst texts. induction H as [|p pages ps ds Hp _ IH]; cbn [map]; constructor.
    - now apply extract_text_library.
    - exact IH. }
  pose proof (convert_text_to_st_Ok (join nl texts)) as C.
  eexists. split; [exact C|].
  unfold Pdf.convert_pdfs_to_st.
  rewrite (pdfs_loop_done E _ _ _ [] T). cbn [app]. now rewrite C.
Qed.

Lemma conversion_of_readable_pdfs_witness :
  Forall2 (fun p pages => (fun _ : string => @inr nat _ [Some "LD X0"; None; Some "OUT Y0"]%string) p
                          = inr pages)
    ["a.pdf"%string] [[Some "LD X0"; None; Some "OUT Y0"]%string]
  /\ exists st,
       convert_text_to_st
         (join nl (map (fun pages => join nl (map Pdf.page_text_or_empty pages))
                     [[Some "LD X0"; None; Some "OUT Y0"]%string]))
       = Ok st
       /\ Pdf.convert_pdfs_to_st nat
            (Some (fun _ : string => inr [Some "LD X0"; None; Some "OUT Y0"]%string))
            ["a.pdf"%string]
          = Pdf.Done st.
Proof.
  assert (H : Forall2
    (fun p pages => (fun _ : string => @inr nat _ [Some "LD X0"; None; Some "OUT Y0"]%string) p
                    = inr pages)
    ["a.pdf"%string] [[Some "LD X0"; None; Some "OUT Y0"]%string]).
  { repeat constructor. }
  split; [exact H|].
  exact (conversion_of_readable_pdfs nat _ _ _ H).
Defined.

(** X14: page breaks do not end a rung: the lines of two consecutive
    pages that carry instructions form one rung, whereas a page
    without text between them, extracted as an empty line, separates
    them into two rungs. *)
Theorem rung_across_pages (E : Type)
    (library : string -> E + list (option string))
    (pdf_path : string) (lines1 lines2 : list string) :
  lines1 <> [] -> Forall stored_line lines1 ->
  lines2 <> [] -> Forall stored_line lines2 ->
  (library pdf_path = inr [Some (join nl lines1); Some (join nl lines2)] ->
   exists text,
     Pdf.extract_text E (Some library) pdf_path = Pdf.Done text
     /\ split_rungs text = [lines1 ++ lines2])
  /\ (library pdf_path = inr [Some (join nl lines1); None; Some (join nl lines2)] ->
      exists text,
        Pdf.extract_text E (Some library) pdf_path = Pdf.Done text
        /\ split_rungs text = [lines1; lines2]).
Proof.
  intros N1 S1 N2 S2. split; intros H;
    rewrite (extract_text_library E _ _ _ H); eexists; (split; [reflexivity|]).
  - cbn [map]. rewrite !page_text_or_empty_Some. cbn [join String.concat].
    now apply stored_lines_one_rung.
  - cbn [map]. rewrite !page_text_or_empty_Some.
    change (join nl [join nl lines1; Pdf.page_text_or_empty None; join nl lines2])
      with (join nl lines1 ++ nl ++ nl ++ join nl lines2)%string.
    rewrite <- (append_assoc nl nl).
    change (join nl lines1 ++ (nl ++ nl) ++ join nl lines2)%string
      with (render_rungs [lines1; lines2]).
    apply split_rungs_render. repeat constructor; assumption.
Qed.

Lemma rung_across_pages_witness :
  ["LD X0"; "AND X1"] <> [] /\ Forall stored_line ["LD X0"; "AND X1"]
  /\ ["OUT Y0"] <> [] /\ Forall stored_line ["OUT Y0"]
  /\ (fun _ : string => @inr nat _ [Some (join nl ["LD X0"; "AND X1"]); Some (join nl ["OUT Y0"])])
       "a.pdf"%string
     = inr [Some (join nl ["LD X0"; "AND X1"]); Some (join nl ["OUT Y0"])]
  /\ exists text,
       Pdf.extract_text nat
         (Some (fun _ : string =>
                  inr [Some (join nl ["LD X0"; "AND X1"]); Some (join nl ["OUT Y0"])]))
         "a.pdf"
       = Pdf.Done text
       /\ split_rungs text = [["LD X0"; "AND X1"] ++ ["OUT Y0"]].
Proof.
  assert (S1 : Forall stored_line ["LD X0"; "AND X1"]).
  { repeat constructor. }
  assert (S2 : Forall stored_line ["OUT Y0"]).
  { repeat constructor. }
  split; [discriminate | split; [exact S1 | split; [discriminate | split; [exact S2|]]]].
  split; [reflexivity|].
  apply (proj1 (rung_across_pages nat
                  (fun _ : string =>
                     inr [Some (join nl ["LD X0"; "AND X1"]); Some (join nl ["OUT Y0"])])
                  "a.pdf" ["LD X0"; "AND X1"] ["OUT Y0"]
                  ltac:(discriminate) S1 ltac:(discriminate) S2)).
  reflexivity.
Defined.

(** X15: neither does the end of a PDF: the last lines of one PDF and
    the first lines of the next one, when both carry instructions,
    are translated as a single rung, numbered 1. *)
Theorem rung_across_pdfs (E : Type)
    (library : string -> E + list (option string))
    (pdf1 pdf2 : string) (lines1 lines2 : list string) :
  lines1 <> [] -> Forall stored_line lines1 ->
  lines2 <> [] -> Forall stored_line lines2 ->
  library pdf1 = inr [Some (join nl lines1)] ->
  library pdf2 = inr [Some (join nl lines2)] ->
  exists block,
    rung_to_st (lines1 ++ lines2) 1 = Ok block
    /\ Pdf.convert_pdfs_to_st E (Some library) [pdf1; pdf2]
       = Pdf.Done (block ++ nl)%string.
Proof.
  intros N1 S1 N2 S2 H1 H2.
  exists (block_of (lines1 ++ lines2) 1). split; [apply rung_to_st_Ok|].
  unfold Pdf.convert_pdfs_to_st. cbn [Pdf.pdfs_loop].
  rewrite (extract_text_library E _ _ _ H1), (extract_text_library E _ _ _ H2).
  cbn [map app]. rewrite !page_text_or_empty_Some. cbn [join String.concat].
  rewrite convert_text_to_st_Ok, join_blocks. unfold blocks_of_text.
  rewrite (stored_lines_one_rung _ _ N1 S1 S2 N2). reflexivity.
Qed.

Lemma rung_across_pdfs_witness :
  ["LD X0"] <> [] /\ Forall stored_line ["LD X0"]
  /\ ["OUT Y0"] <> [] /\ Forall stored_line ["OUT Y0"]
  /\ exists block,
       rung_to_st (["LD X0"] ++ ["OUT Y0"]) 1 = Ok block
       /\ Pdf.convert_pdfs_to_st nat
            (Some (fun p => if (p =? "a.pdf")%string
                            then inr [Some (join nl ["LD X0"])]
                            else inr [Some (join nl ["OUT Y0"])]))
            ["a.pdf"; "b.pdf"]
          = Pdf.Done (block ++ nl)%string.
Proof.
  assert (S1 : Forall stored_line ["LD X0"]).
  { repeat constructor. }
  assert (S2 : Forall stored_line ["OUT Y0"]).
  { repeat constructor. }
  split; [discriminate | split; [exact S1 | split; [discriminate | split; [exact S2|]]]].
  exact (rung_across_pdfs nat
           (fun p => if (p =? "a.pdf")%string
                     then inr [Some (join nl ["LD X0"])]
                     else inr [Some (join nl ["OUT Y0"])])
           "a.pdf" "b.pdf" ["LD X0"] ["OUT Y0"]
           ltac:(discriminate) S1 ltac:(discriminate) S2 eq_refl eq_refl).
Defined.
